(** * sam2covWig: windowed coverage of SAM alignments as a fixed-step wiggle track

    A shallow embedding of [sam2covWig.py] and the properties of its
    streaming window accumulator.

    Conventions of the embedding.
    - Python integers are [Z].  The one place where the script leaves the
      integers is [ceil(a / b)]: it is embedded as the exact ceiling of the
      quotient, which is what the float computation yields for operands
      below 2^53 (every genomic coordinate).
    - The [deque] of window counts is a [list Z], front first.
    - [sys.stdout] is the list of lines printed so far, kept structured
      (the text of a line is a matter of formatting).
    - The header loop is represented by its result, the dictionary
      [chr_lens]; a tabular line by the three fields the script reads from
      it (RNAME, POS, CIGAR).  Module [Input] embeds the header loop and the
      splitting of a line themselves, with the builtin [int] as a parameter,
      and [Input.script] is the script on the lines of standard input. *)

From Stdlib Require Import ZArith Lia Ascii DecimalString DecimalN Sorted.
From stdpp Require Import base numbers list strings gmap.

Local Open Scope Z_scope.

(** ** Span calculator: [sumTargetConsumingCigarOps] *)

Module Cigar.

(** The character classes of [TARGET_CONSUMERS_REGEX = r'([0-9]+)[=DMX]']. *)
Definition is_digit (c : ascii) : bool :=
  let n := N_of_ascii c in ((48 <=? n) && (n <=? 57))%N.

Definition is_consumer (c : ascii) : bool :=
  match c with
  | "="%char | "D"%char | "M"%char | "X"%char => true
  | _ => false
  end.

(** [re] anchored at the head of [s]: [[0-9]+] is greedy, so a digit first
    tries to extend the run, and gives the position back to [[=DMX]] only
    when the longer attempt fails.  The result is [group(1)] and the text
    after the match. *)
Fixpoint match_at (s : string) : option (string * string) :=
  match s with
  | String c s' =>
      if is_digit c then
        match match_at s' with
        | Some (g, rest) => Some (String c g, rest)
        | None =>
            match s' with
            | String op rest =>
                if is_consumer op then Some (String c EmptyString, rest)
                else None
            | EmptyString => None
            end
        end
      else None
  | EmptyString => None
  end.

(** [re.finditer]: leftmost matches, not overlapping; the scan resumes at
    the end of a match, or one character further when there is none.
    Every step consumes a character, so [String.length s] steps suffice
    (lemma [finditer_fuel_enough]). *)
Fixpoint finditer_from (fuel : nat) (s : string) : list string :=
  match fuel with
  | O => []
  | S fuel' =>
      match s with
      | EmptyString => []
      | String _ s' =>
          match match_at s with
          | Some (g, rest) => g :: finditer_from fuel' rest
          | None => finditer_from fuel' s'
          end
      end
  end.

Definition finditer (s : string) : list string :=
  finditer_from (String.length s) s.

(** [int(match.group(1))] on a group of ASCII digits. *)
Definition digit_value (c : ascii) : Z := Z.of_N (N_of_ascii c) - 48.

Fixpoint int_from (acc : Z) (s : string) : Z :=
  match s with
  | EmptyString => acc
  | String c s' => int_from (10 * acc + digit_value c) s'
  end.

Definition int (s : string) : Z := int_from 0 s.

Definition sumTargetConsumingCigarOps (cigar : string) : Z :=
  fold_left (fun consumed_target_bases g => consumed_target_bases + int g)
            (finditer cigar) 0.

End Cigar.

Export Cigar.

(** ** The deque operations the script uses *)

Module Deque.

Definition append (d : list Z) (x : Z) : list Z := d ++ [x].

Definition appendleft (d : list Z) (x : Z) : list Z := x :: d.

(** [pop] takes the rightmost element; [None] stands for [IndexError]. *)
Definition pop (d : list Z) : option (Z * list Z) :=
  match rev d with
  | [] => None
  | x :: r => Some (x, rev r)
  end.

Definition popleft (d : list Z) : option (Z * list Z) :=
  match d with
  | [] => None
  | x :: d' => Some (x, d')
  end.

(** One step to the right is [d.appendleft(d.pop())], one step to the left
    is [d.append(d.popleft())]; an empty deque is left alone. *)
Definition rotate_right1 (d : list Z) : list Z :=
  match pop d with
  | Some (x, d') => appendleft d' x
  | None => d
  end.

Definition rotate_left1 (d : list Z) : list Z :=
  match popleft d with
  | Some (x, d') => append d' x
  | None => d
  end.

(** [d.rotate(n)]: [n] steps to the right, to the left when [n] is
    negative. *)
Definition rotate (n : Z) (d : list Z) : list Z :=
  if 0 <=? n then Nat.iter (Z.to_nat n) rotate_right1 d
  else Nat.iter (Z.to_nat (- n)) rotate_left1 d.

End Deque.

(** ** Exceptions, output lines and the interpreter state *)

Inductive exn : Type :=
| SAMformatException (msg : string)
| ZeroDivisionError
| ValueError
| IndexError.

Inductive line : Type :=
| TrackDef (name : string)
    (* track type="wiggle_0" name="<name>" *)
| FixedStep (chrom : string) (start step span : Z)
    (* fixedStep chrom=<chrom> start=<start> step=<step> span=<span> *)
| Count (n : Z).
    (* one window's count *)

(** How a computation ends: normally with a value, by an uncaught
    exception (with what had been printed by then), or never. *)
Inductive outcome (A : Type) : Type :=
| Done (a : A)
| Raised (e : exn) (stdout : list line)
| Diverged.

Arguments Done {A} a.
Arguments Raised {A} e stdout.
Arguments Diverged {A}.

Definition bind {A B : Type} (m : outcome A) (k : A -> outcome B) : outcome B :=
  match m with
  | Done a => k a
  | Raised e o => Raised e o
  | Diverged => Diverged
  end.

Notation "x <- m ;; k" := (bind m (fun x => k))
  (at level 100, m at next level, right associativity).

Record sam_record : Type := SamRecord {
  target_name : string;   (* fields[2] *)
  target_start : Z;       (* int(fields[3]), 1-based *)
  cigar : string          (* fields[5] *)
}.

Record state : Type := State {
  windows : list Z;
  current_chr : string;
  current_chr_len : Z;
  current_window_start : Z;
  stdout : list line
}.

(** ** Arithmetic of the script *)

(** [ceil(a / b)] for [b <> 0]. *)
Definition ceil_div (a b : Z) : Z := - ((- a) / b).

(** [range(start, stop, step)]; [None] is the [ValueError] of a zero step. *)
Definition range_len (lo hi step : Z) : Z :=
  if lo <? hi then (hi - lo - 1) / step + 1 else 0.

Definition range (start stop step : Z) : option (list Z) :=
  if step =? 0 then None
  else
    let n := if 0 <? step then range_len start stop step
             else range_len stop start (- step) in
    Some (map (fun i : nat => start + Z.of_nat i * step) (seq 0 (Z.to_nat n))).

(** ** [incrementCountsForCoveredWindows] *)

(** [while len(windows) < num_windows_covered: windows.append(0)] *)
Fixpoint grow (missing : nat) (windows : list Z) : list Z :=
  match missing with
  | O => windows
  | S m => grow m (Deque.append windows 0)
  end.

(** [for i in range(n): windows.appendleft(windows.pop() + 1)] *)
Fixpoint increment_loop (n : nat) (windows : list Z) : option (list Z) :=
  match n with
  | O => Some windows
  | S n' =>
      match Deque.pop windows with
      | None => None
      | Some (x, windows') => increment_loop n' (Deque.appendleft windows' (x + 1))
      end
  end.

(** The deque is updated in place in the script; here the updated deque is
    the result.  [target_len] only feeds [max_possible_windows_covered],
    which is computed ([target_len / window_size] raises on a zero window
    size) and never used. *)
Definition incrementCountsForCoveredWindows
    (windows : list Z)
    (current_window_start target_start target_end target_len window_size : Z)
    : exn + list Z :=
  if window_size =? 0 then inl ZeroDivisionError
  else
    let num_windows_covered :=
      ceil_div (target_end + 1 - current_window_start) window_size in
    let windows1 :=
      grow (Z.to_nat (num_windows_covered - Z.of_nat (length windows))) windows in
    let windows2 := Deque.rotate (- num_windows_covered) windows1 in
    match increment_loop (Z.to_nat num_windows_covered) windows2 with
    | Some windows3 => inr windows3
    | None => inl IndexError
    end.

(** ** The main program *)

Section Main.

Variable WINDOW_SIZE : Z.
Variable TRACK_NAME : string.
Variable chr_lens : gmap string Z.

(** Lines 102-110, repeated as lines 159-167: write what is left of a
    chromosome. *)
Definition finish_chr (st : state) : outcome state :=
  let cws := current_window_start st + Z.of_nat (length (windows st)) * WINDOW_SIZE in
  let printed := stdout st ++ map Count (windows st) in
  match range cws (current_chr_len st + 1) WINDOW_SIZE with
  | None => Raised ValueError printed
  | Some unstored =>
      Done (State [] (current_chr st) (current_chr_len st) cws
                  (printed ++ map (fun _ => Count 0) unstored))
  end.

(** Lines 99-121: the record is on another chromosome. *)
Definition next_chr (st : state) (target_name : string) : outcome state :=
  st1 <- finish_chr st ;;
  match chr_lens !! target_name with
  | None =>
      Raised (SAMformatException
                "SAM alignment record had RNAME value not present in SAM @SQ headers")
             (stdout st1)
  | Some len =>
      Done (State (windows st1) target_name len 1
                  (stdout st1 ++ [FixedStep target_name 1 WINDOW_SIZE WINDOW_SIZE]))
  end.

(** Lines 124-142.  The [while] loop is run on fuel; running out of it is
    [Diverged]. *)
Fixpoint advance (fuel : nat) (target_start : Z) (st : state) : outcome state :=
  if target_start >? current_window_start st + WINDOW_SIZE - 1 then
    match fuel with
    | O => Diverged
    | S fuel' =>
        let '(current_window_coverage, windows') :=
          match Deque.popleft (windows st) with
          | Some (c, ws) => (c, ws)
          | None => (0, [])
          end in
        advance fuel' target_start
          (State windows' (current_chr st) (current_chr_len st)
                 (current_window_start st + WINDOW_SIZE)
                 (stdout st ++ [Count current_window_coverage]))
    end
  else Done st.

(** With a positive window size the loop body runs at most
    [target_start - current_window_start] times (lemma [advance_total]);
    otherwise a loop that is entered never ends (lemma
    [advance_never_ends]). *)
Definition advance_fuel (target_start : Z) (st : state) : nat :=
  Z.to_nat (target_start - current_window_start st).

(** One iteration of the loop over the tabular lines (lines 88-155). *)
Definition process_record (st : state) (r : sam_record) : outcome state :=
  if decide (cigar r = "*"%string) then Done st
  else
    st1 <- (if decide (current_chr st = target_name r) then Done st
            else next_chr st (target_name r)) ;;
    st2 <- advance (advance_fuel (target_start r) st1) (target_start r) st1 ;;
    let target_len := sumTargetConsumingCigarOps (cigar r) in
    let target_end := target_start r + target_len - 1 in
    match incrementCountsForCoveredWindows (windows st2) (current_window_start st2)
            (target_start r) target_end target_len WINDOW_SIZE with
    | inl e => Raised e (stdout st2)
    | inr windows' =>
        Done (State windows' (current_chr st2) (current_chr_len st2)
                    (current_window_start st2) (stdout st2))
    end.

Fixpoint process_records (st : state) (records : list sam_record) : outcome state :=
  match records with
  | [] => Done st
  | r :: records' => st' <- process_record st r ;; process_records st' records'
  end.

Definition initial_state : state :=
  State [] ""%string 0 1 [TrackDef TRACK_NAME].

(** The whole script on the tabular lines [records].  When there is none,
    the header loop reads the empty line of end-of-input and [line[0]]
    raises. *)
Definition main (records : list sam_record) : outcome (list line) :=
  match records with
  | [] => Raised IndexError [TrackDef TRACK_NAME]
  | _ =>
      st <- process_records initial_state records ;;
      st' <- finish_chr st ;;
      Done (stdout st')
  end.

End Main.

(** What reached standard output, when the run ended. *)
Definition printed (o : outcome (list line)) : option (list line) :=
  match o with
  | Done out => Some out
  | Raised _ out => Some out
  | Diverged => None
  end.

(** ** Reading standard input: the header loop and the fields of a line

    Standard input is the list of the lines [sys.stdin.readline()] returns
    before the end of the input; past them it returns the empty string.
    The builtin [int] on a string is a parameter, [None] standing for its
    [ValueError]. *)

Module Input.

Definition tab : ascii := "009"%char.
Definition newline : ascii := "010"%char.

(** [[^\t]+] at the head of [s], greedy: the characters before the first
    tab, and the text from that tab on. *)
Fixpoint until_tab (s : string) : string * string :=
  match s with
  | EmptyString => (EmptyString, EmptyString)
  | String c s' =>
      if Ascii.eqb c tab then (EmptyString, s)
      else let '(v, rest) := until_tab s' in (String c v, rest)
  end.

(** [SQ_SN_REGEX = r"([LS]N):([^\t]+)"] anchored at the head of [s]: the
    two groups and the text after the match. *)
Definition match_tag_at (s : string) : option ((string * string) * string) :=
  match s with
  | String c (String n (String colon s')) =>
      if (Ascii.eqb c "L" || Ascii.eqb c "S") && Ascii.eqb n "N" && Ascii.eqb colon ":"
      then
        match until_tab s' with
        | (EmptyString, _) => None
        | (v, rest) => Some ((String c (String n EmptyString), v), rest)
        end
      else None
  | _ => None
  end.

(** [re.findall]: the groups of the leftmost matches that do not overlap. *)
Fixpoint findall_from (fuel : nat) (s : string) : list (string * string) :=
  match fuel with
  | O => []
  | S fuel' =>
      match s with
      | EmptyString => []
      | String _ s' =>
          match match_tag_at s with
          | Some (groups, rest) => groups :: findall_from fuel' rest
          | None => findall_from fuel' s'
          end
      end
  end.

Definition findall (s : string) : list (string * string) :=
  findall_from (String.length s) s.

(** [dict(pairs)]: a later pair replaces an earlier one with its key. *)
Definition dict (pairs : list (string * string)) : gmap string string :=
  fold_left (fun d kv => <[kv.1 := kv.2]> d) pairs ∅.

(** [line.rstrip('\n')] *)
Fixpoint rstrip_newline (s : string) : string :=
  match s with
  | EmptyString => EmptyString
  | String c s' =>
      match rstrip_newline s' with
      | EmptyString => if Ascii.eqb c newline then EmptyString else String c EmptyString
      | t => String c t
      end
  end.

(** [s.split('\t')] *)
Fixpoint split_tab (s : string) : list string :=
  match s with
  | EmptyString => [EmptyString]
  | String c s' =>
      if Ascii.eqb c tab then EmptyString :: split_tab s'
      else
        match split_tab s' with
        | field :: fields => String c field :: fields
        | [] => [String c EmptyString]
        end
  end.

Section WithInt.

Variable py_int : string -> option Z.

Variable WINDOW_SIZE : Z.
Variable TRACK_NAME : string.

(** Lines 76-79: the body of the header loop. *)
Definition header_line (chr_lens : gmap string Z) (line : string)
    : exn + gmap string Z :=
  if String.prefix "@SQ" line then
    let temp_pair := dict (findall line) in
    match temp_pair !! "SN"%string, temp_pair !! "LN"%string with
    | Some sn, Some ln =>
        match py_int ln with
        | Some n => inr (<[sn := n]> chr_lens)
        | None => inl ValueError
        end
    | _, _ =>
        inl (SAMformatException "SAM @SQ header record was missing SN and/or LN")
    end
  else inr chr_lens.

(** Lines 70-80: the header loop, up to the first line that does not
    begin with [@]; that line and the lines after it are what is left of
    the input.  [line[0]] raises on the empty string of the end of the
    input. *)
Fixpoint header_loop (chr_lens : gmap string Z) (lines : list string)
    : exn + (gmap string Z * list string) :=
  match lines with
  | [] => inl IndexError
  | line :: lines' =>
      match line with
      | EmptyString => inl IndexError
      | String c _ =>
          if Ascii.eqb c "@" then
            match header_line chr_lens line with
            | inl e => inl e
            | inr chr_lens' => header_loop chr_lens' lines'
            end
          else inr (chr_lens, lines)
      end
  end.

(** Lines 88-93: the three fields of a tabular line.  They are read, and
    the position converted, before the CIGAR is looked at. *)
Definition parse_line (line : string) : exn + sam_record :=
  let fields := split_tab (rstrip_newline line) in
  match fields !! 2%nat with
  | None => inl IndexError
  | Some target_name =>
      match fields !! 3%nat with
      | None => inl IndexError
      | Some pos =>
          match py_int pos with
          | None => inl ValueError
          | Some target_start =>
              match fields !! 5%nat with
              | None => inl IndexError
              | Some cigar => inr (SamRecord target_name target_start cigar)
              end
          end
      end
  end.

(** Lines 87-155: the loop over the tabular lines, which ends at the empty
    string. *)
Fixpoint tabular_loop (chr_lens : gmap string Z) (st : state) (lines : list string)
    : outcome state :=
  match lines with
  | [] => Done st
  | line :: lines' =>
      match line with
      | EmptyString => Done st
      | _ =>
          match parse_line line with
          | inl e => Raised e (stdout st)
          | inr r =>
              st' <- process_record WINDOW_SIZE chr_lens st r ;;
              tabular_loop chr_lens st' lines'
          end
      end
  end.

(** The script on standard input. *)
Definition script (lines : list string) : outcome (list line) :=
  match header_loop ∅ lines with
  | inl e => Raised e [TrackDef TRACK_NAME]
  | inr (chr_lens, rest) =>
      st <- tabular_loop chr_lens (initial_state TRACK_NAME) rest ;;
      st' <- finish_chr WINDOW_SIZE st ;;
      Done (stdout st')
  end.

End WithInt.

End Input.

(** ** The input format: CIGAR strings

    What the SAM format calls a CIGAR string: a sequence of operations, each
    written as a decimal length followed by the letter of the operation.
    These definitions describe the input of the span calculator; they are
    not part of the script. *)

Module SamCigar.

Inductive cigar_op : Type :=
| OpM    (* M: alignment match, a sequence match or a mismatch *)
| OpI    (* I: insertion to the reference *)
| OpD    (* D: deletion from the reference *)
| OpN    (* N: skipped region of the reference *)
| OpS    (* S: soft clipping *)
| OpH    (* H: hard clipping *)
| OpP    (* P: padding *)
| OpEq   (* =: sequence match *)
| OpX.   (* X: sequence mismatch *)

Definition op_char (op : cigar_op) : ascii :=
  match op with
  | OpM => "M" | OpI => "I" | OpD => "D" | OpN => "N" | OpS => "S"
  | OpH => "H" | OpP => "P" | OpEq => "=" | OpX => "X"
  end%char.

(** The operations the span calculator is to count. *)
Definition counted (op : cigar_op) : bool :=
  match op with
  | OpM | OpD | OpEq | OpX => true
  | OpI | OpS | OpH | OpP | OpN => false
  end.

(** A length is written as a string of decimal digits, which
    [Decimal.uint] is; leading zeros are allowed, and [N.of_uint] is the
    number written.  [N.to_uint n] is the usual way of writing [n]. *)
Definition digits (u : Decimal.uint) : string := NilEmpty.string_of_uint u.

Fixpoint render (ops : list (Decimal.uint * cigar_op)) : string :=
  match ops with
  | [] => EmptyString
  | (u, op) :: ops' => digits u +:+ String (op_char op) (render ops')
  end.

(** The sum of the lengths of the counted operations. *)
Fixpoint counted_length (ops : list (Decimal.uint * cigar_op)) : Z :=
  match ops with
  | [] => 0
  | (u, op) :: ops' =>
      (if counted op then Z.of_N (N.of_uint u) else 0) + counted_length ops'
  end.

(** All characters of a text are decimal digits. *)
Fixpoint all_digits (s : string) : bool :=
  match s with
  | EmptyString => true
  | String c s' => is_digit c && all_digits s'
  end.

(** No character of a text is one of [=DMX]. *)
Fixpoint no_consumer (s : string) : bool :=
  match s with
  | EmptyString => true
  | String c s' => negb (is_consumer c) && no_consumer s'
  end.

End SamCigar.

Export SamCigar.

(** For the examples: [int] on decimal digits that newlines may follow
    (other texts are not needed there and are given no value). *)
Definition int_of_digits (s : string) : option Z :=
  match Input.rstrip_newline s with
  | EmptyString => None
  | t => if all_digits t then Some (int t) else None
  end.

(** ** The meaning of the input and of the output *)

(** The reference positions a record consumes, and the last of them. *)
Definition span (r : sam_record) : Z := sumTargetConsumingCigarOps (cigar r).

Definition last_base (r : sam_record) : Z := target_start r + span r - 1.

(** The records the main loop does not skip. *)
Definition mapped_records (records : list sam_record) : list sam_record :=
  filter (fun r => cigar r <> "*"%string) records.

(** The longest span among the mapped records. *)
Fixpoint longest_span (records : list sam_record) : Z :=
  match records with
  | [] => 0
  | r :: records' =>
      if decide (cigar r = "*"%string) then longest_span records'
      else Z.max (span r) (longest_span records')
  end.








(** The lines of an output that belong to chromosome [chr]: its step
    declarations and the counts that follow them, up to the next
    declaration. *)
Fixpoint lines_from (chr : string) (inside : bool) (out : list line) : list line :=
  match out with
  | [] => []
  | FixedStep c start step sp :: out' =>
      if decide (c = chr) then FixedStep c start step sp :: lines_from chr true out'
      else lines_from chr false out'
  | Count n :: out' =>
      if inside then Count n :: lines_from chr true out'
      else lines_from chr false out'
  | TrackDef _ :: out' => lines_from chr false out'
  end.

Definition lines_for (chr : string) (out : list line) : list line :=
  lines_from chr false out.

(** The counts of an output, in order. *)
Definition counts_of (out : list line) : list Z :=
  omap (fun l => match l with Count n => Some n | _ => None end) out.

(** The chromosomes an output declares, in order. *)
Definition declared_chrs (out : list line) : list string :=
  omap (fun l => match l with FixedStep c _ _ _ => Some c | _ => None end) out.

(** What an interrupted or completed computation on the state has written. *)
Definition lines_written (o : outcome state) : option (list line) :=
  match o with
  | Done st => Some (stdout st)
  | Raised _ out => Some out
  | Diverged => None
  end.


(** ** The text of the input lines *)

(** No character of a text is a tab or a newline. *)
Fixpoint plain (s : string) : bool :=
  match s with
  | EmptyString => true
  | String c s' =>
      negb (Ascii.eqb c Input.tab) && negb (Ascii.eqb c Input.newline) && plain s'
  end.

(** No character of a text is a newline. *)
Fixpoint newline_free (s : string) : bool :=
  match s with
  | EmptyString => true
  | String c s' => negb (Ascii.eqb c Input.newline) && newline_free s'
  end.

(** No character of a text is a tab. *)
Fixpoint tab_free (s : string) : bool :=
  match s with
  | EmptyString => true
  | String c s' => negb (Ascii.eqb c Input.tab) && tab_free s'
  end.

(** The fields of a line, with tabs between them. *)
Fixpoint join_tab (fields : list string) : string :=
  match fields with
  | [] => EmptyString
  | [field] => field
  | field :: fields' => field +:+ String Input.tab (join_tab fields')
  end.

(** An [@SQ] header line with two tags, the second up to the end of the
    line. *)
Definition sq_line (tag1 value1 tag2 value2 : string) : string :=
  "@SQ" +:+ String Input.tab
    (tag1 +:+ String ":" (value1 +:+ String Input.tab
       (tag2 +:+ String ":" value2))).

(** ** Auxiliary descriptions of what the loops do *)

(** The counts the advance loop writes in [n] rounds: those of the deque,
    then zeros once it is empty. *)
Definition written (n : nat) (ws : list Z) : list Z :=
  take n ws ++ replicate (n - length ws) 0.

(** The deque grown to [k] counts, with its first [k] counts incremented. *)
Definition add_covered (k : nat) (ws : list Z) : list Z :=
  let grown := ws ++ replicate (k - length ws)%nat 0 in
  map Z.succ (take k grown) ++ drop k grown.

(** The values of [f] at [n] consecutive window starts from [start]. *)
Definition counts_from (f : Z -> Z) (w start : Z) (n : nat) : list Z :=
  map (fun j : nat => f (start + Z.of_nat j * w)) (seq 0 n).







(** * Properties *)

(** ** The span calculator *)

Module CigarFacts.

Lemma digit_not_consumer c : is_digit c = true -> is_consumer c = false.
Proof.
  destruct c as [[] [] [] [] [] [] [] []]; vm_compute; congruence.
Qed.

Lemma match_at_shorter s g rest :
  match_at s = Some (g, rest) -> (String.length rest < String.length s)%nat.
Proof.
  revert g rest. induction s as [|c s IH]; intros g rest; simpl; [discriminate|].
  destruct (is_digit c); [|discriminate].
  destruct (match_at s) as [[g' rest']|] eqn:E.
  - intros [= <- <-]. specialize (IH _ _ eq_refl). lia.
  - destruct s as [|op s']; [discriminate|].
    destruct (is_consumer op); [|discriminate].
    intros [= <- <-]. simpl. lia.
Qed.

(** More fuel than the length of the text changes nothing. *)
Lemma finditer_from_stable fuel1 fuel2 s :
  (String.length s <= fuel1)%nat -> (String.length s <= fuel2)%nat ->
  finditer_from fuel1 s = finditer_from fuel2 s.
Proof.
  revert fuel2 s. induction fuel1 as [|f1 IH]; intros [|f2] s H1 H2;
    destruct s as [|c s']; simpl in *; try lia; try reflexivity.
  destruct (is_digit c); [|apply IH; lia].
  destruct (match_at s') as [[g rest]|] eqn:E.
  - f_equal. apply match_at_shorter in E. apply IH; lia.
  - destruct s' as [|op rest]; [apply IH; simpl; lia|].
    destruct (is_consumer op); [f_equal|]; apply IH; simpl in *; lia.
Qed.

Lemma finditer_fuel_enough fuel s :
  (String.length s <= fuel)%nat -> finditer_from fuel s = finditer s.
Proof. intros H. apply finditer_from_stable; [exact H | reflexivity]. Qed.

Lemma finditer_empty : finditer EmptyString = [].
Proof. reflexivity. Qed.

Lemma finditer_step c s :
  finditer (String c s) =
  match match_at (String c s) with
  | Some (g, rest) => g :: finditer rest
  | None => finditer s
  end.
Proof.
  unfold finditer at 1. cbn [String.length finditer_from].
  destruct (match_at (String c s)) as [[g rest]|] eqn:E.
  - apply match_at_shorter in E. simpl in E.
    f_equal. apply finditer_fuel_enough. lia.
  - apply finditer_fuel_enough. lia.
Qed.

Lemma append_empty (t : string) : EmptyString +:+ t = t.
Proof. reflexivity. Qed.

Lemma append_String c (s t : string) : String c s +:+ t = String c (s +:+ t).
Proof. reflexivity. Qed.

(** A run of digits closed by a character that is not a digit matches as a
    whole, and only when that character is one of [=DMX]. *)
Lemma match_at_run d ds c rest :
  is_digit d = true -> all_digits ds = true -> is_digit c = false ->
  match_at (String d (ds +:+ String c rest)) =
  if is_consumer c then Some (String d ds, rest) else None.
Proof.
  revert d. induction ds as [|d' ds IH]; intros d Hd Hds Hc.
  - rewrite append_empty. cbn [match_at]. rewrite Hd, Hc. reflexivity.
  - cbn [all_digits] in Hds. apply andb_prop in Hds as [Hd' Hds].
    rewrite append_String. specialize (IH d' Hd' Hds Hc).
    cbn [match_at] in IH |- *. rewrite Hd, IH.
    destruct (is_consumer c); [reflexivity|].
    rewrite (digit_not_consumer _ Hd'). reflexivity.
Qed.

Lemma finditer_run_skipped ds c rest :
  all_digits ds = true -> is_digit c = false -> is_consumer c = false ->
  finditer (ds +:+ String c rest) = finditer rest.
Proof.
  intros Hds Hc Hn. induction ds as [|d ds IH].
  - rewrite append_empty, finditer_step. cbn [match_at].
    rewrite Hc. reflexivity.
  - cbn [all_digits] in Hds. apply andb_prop in Hds as [Hd Hds].
    rewrite append_String, finditer_step.
    rewrite (match_at_run d ds c rest Hd Hds Hc), Hn. auto.
Qed.

Lemma finditer_run_matched d ds c rest :
  is_digit d = true -> all_digits ds = true -> is_consumer c = true ->
  finditer (String d (ds +:+ String c rest)) = String d ds :: finditer rest.
Proof.
  intros Hd Hds Hc.
  assert (Hnd : is_digit c = false).
  { destruct (is_digit c) eqn:E; [|reflexivity].
    apply digit_not_consumer in E. congruence. }
  rewrite finditer_step, (match_at_run d ds c rest Hd Hds Hnd), Hc. reflexivity.
Qed.

Lemma match_at_no_consumer s : no_consumer s = true -> match_at s = None.
Proof.
  induction s as [|c s IH]; [reflexivity|]. cbn [no_consumer match_at].
  intros [_ Hs]%andb_prop. rewrite (IH Hs).
  destruct (is_digit c); [|reflexivity].
  destruct s as [|op rest]; [reflexivity|].
  cbn [no_consumer] in Hs. apply andb_prop in Hs as [Hop _].
  destruct (is_consumer op); [discriminate | reflexivity].
Qed.

Lemma finditer_no_consumer s : no_consumer s = true -> finditer s = [].
Proof.
  induction s as [|c s IH]; [reflexivity|]. intros H.
  rewrite finditer_step, (match_at_no_consumer _ H).
  cbn [no_consumer] in H. apply andb_prop in H as [_ H]. auto.
Qed.

(** The running total of the [for] loop. *)
Lemma sum_groups_from acc gs :
  fold_left (fun consumed g => consumed + int g) gs acc =
  acc + fold_left (fun consumed g => consumed + int g) gs 0.
Proof.
  revert acc. induction gs as [|g gs IH]; intros acc; simpl; [lia|].
  rewrite (IH (acc + int g)), (IH (0 + int g)). lia.
Qed.

Lemma sum_matched g rest :
  fold_left (fun consumed g => consumed + int g) (g :: rest) 0 =
  int g + fold_left (fun consumed g => consumed + int g) rest 0.
Proof. simpl. rewrite sum_groups_from. lia. Qed.

Lemma digit_value_range c : is_digit c = true -> 0 <= digit_value c <= 9.
Proof.
  unfold is_digit, digit_value. intros [H1 H2]%andb_prop.
  apply N.leb_le in H1, H2. lia.
Qed.

Lemma int_from_nonneg s acc : 0 <= acc -> all_digits s = true -> 0 <= int_from acc s.
Proof.
  revert acc. induction s as [|c s IH]; intros acc Hacc Hs; simpl; [exact Hacc|].
  cbn [all_digits] in Hs. apply andb_prop in Hs as [Hc Hs].
  apply IH; [|exact Hs].
  pose proof (digit_value_range c Hc). lia.
Qed.

Lemma decimal_digits u : all_digits (NilEmpty.string_of_uint u) = true.
Proof. induction u; simpl; auto. Qed.

Lemma int_from_decimal u (acc : positive) :
  int_from (Z.pos acc) (NilEmpty.string_of_uint u) = Z.pos (Pos.of_uint_acc u acc).
Proof.
  revert acc. induction u; intros acc; cbn [NilEmpty.string_of_uint int_from Pos.of_uint_acc];
    [reflexivity | rewrite <- IHu; f_equal ..];
    match goal with
    | |- context [digit_value ?c] =>
        let v := eval vm_compute in (digit_value c) in
        change (digit_value c) with v
    end; lia.
Qed.

Lemma int_of_uint u : int (NilEmpty.string_of_uint u) = Z.of_N (N.of_uint u).
Proof.
  unfold int, N.of_uint.
  induction u; cbn [NilEmpty.string_of_uint int_from Pos.of_uint]; try reflexivity;
    try exact IHu;
    change (Z.of_N (N.pos ?p)) with (Z.pos p); rewrite <- int_from_decimal; reflexivity.
Qed.

Lemma int_digits u : int (digits u) = Z.of_N (N.of_uint u).
Proof. apply int_of_uint. Qed.

Lemma op_char_not_digit op : is_digit (op_char op) = false.
Proof. destruct op; reflexivity. Qed.

Lemma op_char_consumer op : is_consumer (op_char op) = counted op.
Proof. destruct op; reflexivity. Qed.

Lemma span_of_render ops :
  sumTargetConsumingCigarOps (render ops) = counted_length ops.
Proof.
  unfold sumTargetConsumingCigarOps.
  induction ops as [|[u op] ops IH]; [reflexivity|].
  cbn [render counted_length].
  pose proof (decimal_digits u) as Hu. pose proof (int_digits u) as Hn.
  fold (digits u) in Hu. rewrite <- Hn.
  destruct (digits u) as [|d ds].
  - rewrite append_empty, finditer_step. cbn [match_at].
    rewrite op_char_not_digit, IH. change (int EmptyString) with 0.
    destruct (counted op); reflexivity.
  - cbn [all_digits] in Hu. apply andb_prop in Hu as [Hd Hds].
    rewrite append_String, <- op_char_consumer.
    destruct (is_consumer (op_char op)) eqn:Hop.
    + rewrite (finditer_run_matched d ds _ _ Hd Hds Hop), sum_matched, IH.
      reflexivity.
    + rewrite <- append_String.
      rewrite (finditer_run_skipped (String d ds) _ _);
        [lia | | apply op_char_not_digit | exact Hop].
      cbn [all_digits]. rewrite Hd, Hds. reflexivity.
Qed.

(** A span is never negative. *)
Lemma match_at_digits s g rest :
  match_at s = Some (g, rest) -> all_digits g = true.
Proof.
  revert g rest. induction s as [|c s IH]; intros g rest; cbn [match_at]; [discriminate|].
  destruct (is_digit c) eqn:Hc; [|discriminate].
  destruct (match_at s) as [[g' rest']|].
  - intros [= <- <-]. cbn [all_digits]. rewrite Hc, (IH _ _ eq_refl). reflexivity.
  - destruct s as [|op s']; [discriminate|].
    destruct (is_consumer op); [|discriminate].
    intros [= <- <-]. cbn [all_digits]. rewrite Hc. reflexivity.
Qed.

Lemma finditer_from_digits fuel s :
  Forall (fun g => all_digits g = true) (finditer_from fuel s).
Proof.
  revert s. induction fuel as [|fuel IH]; intros s; cbn [finditer_from]; [constructor|].
  destruct s as [|c s']; [constructor|].
  destruct (match_at (String c s')) as [[g rest]|] eqn:E; [|apply IH].
  constructor; [exact (match_at_digits _ _ _ E) | apply IH].
Qed.

Lemma sum_groups_nonneg gs acc :
  0 <= acc -> Forall (fun g => all_digits g = true) gs ->
  0 <= fold_left (fun consumed g => consumed + int g) gs acc.
Proof.
  revert acc. induction gs as [|g gs IH]; intros acc Hacc Hgs; simpl; [exact Hacc|].
  apply Forall_cons in Hgs as [Hg Hgs]. apply IH; [|exact Hgs].
  pose proof (int_from_nonneg g 0 ltac:(lia) Hg). unfold int. lia.
Qed.

Lemma span_calculator_nonneg c : 0 <= sumTargetConsumingCigarOps c.
Proof.
  unfold sumTargetConsumingCigarOps, finditer.
  apply sum_groups_nonneg; [lia | apply finditer_from_digits].
Qed.

End CigarFacts.

(** C6: on every CIGAR string (operations written as decimal digits and a
    letter) the span calculator returns the sum of the lengths of the
    operations M, D, = and X, while I, S, H, P and N add nothing; a text in
    which none of the four letters occurs (so one with no recognised
    operation) gives 0.  The calculator is a function of its argument
    alone: it reads no state and changes none. *)
Theorem span_calculator_counts_target_consumers :
  (forall ops : list (Decimal.uint * cigar_op),
      sumTargetConsumingCigarOps (render ops) = counted_length ops) /\
  (forall s : string, no_consumer s = true -> sumTargetConsumingCigarOps s = 0).
Proof.
  split.
  - exact CigarFacts.span_of_render.
  - intros s H. unfold sumTargetConsumingCigarOps.
    rewrite (CigarFacts.finditer_no_consumer s H). reflexivity.
Qed.

Lemma span_calculator_counts_target_consumers_witness :
  sumTargetConsumingCigarOps
    (render [(N.to_uint 3, OpS); (N.to_uint 10, OpM); (N.to_uint 2, OpI);
             (N.to_uint 5, OpD); (N.to_uint 7, OpN); (N.to_uint 4, OpEq);
             (Decimal.D0 (Decimal.D1 Decimal.Nil), OpX); (N.to_uint 8, OpH)]) = 20 /\
  sumTargetConsumingCigarOps "3S2I7N" = 0.
Proof.
  split.
  - exact (proj1 span_calculator_counts_target_consumers
             [(N.to_uint 3, OpS); (N.to_uint 10, OpM); (N.to_uint 2, OpI);
              (N.to_uint 5, OpD); (N.to_uint 7, OpN); (N.to_uint 4, OpEq);
              (Decimal.D0 (Decimal.D1 Decimal.Nil), OpX); (N.to_uint 8, OpH)]).
  - apply (proj2 span_calculator_counts_target_consumers). reflexivity.
Defined.

(** ** The deque and [incrementCountsForCoveredWindows] *)

Module DequeFacts.
Import Deque.

Lemma pop_snoc d x : pop (d ++ [x]) = Some (x, d).
Proof. unfold pop. rewrite rev_app_distr. simpl. rewrite rev_involutive. reflexivity. Qed.

Lemma pop_nil : pop [] = None.
Proof. reflexivity. Qed.

Lemma length_rotate_right1 d : length (rotate_right1 d) = length d.
Proof.
  destruct d as [|y d] using rev_ind; [reflexivity|].
  unfold rotate_right1, appendleft. rewrite pop_snoc, length_app. simpl. lia.
Qed.

Lemma length_rotate_left1 d : length (rotate_left1 d) = length d.
Proof.
  destruct d as [|y d]; [reflexivity|].
  unfold rotate_left1, append. simpl. rewrite length_app. simpl. lia.
Qed.

Lemma length_iter (f : list Z -> list Z) n d :
  (forall l, length (f l) = length l) -> length (Nat.iter n f d) = length d.
Proof. intros Hf. induction n as [|n IH]; simpl; [reflexivity|]. rewrite Hf. exact IH. Qed.

Lemma length_rotate n d : length (rotate n d) = length d.
Proof.
  unfold rotate. destruct (0 <=? n); apply length_iter;
    [apply length_rotate_right1 | apply length_rotate_left1].
Qed.

Lemma rotate_zero d : rotate 0 d = d.
Proof. reflexivity. Qed.

(** Rotating to the left as many steps as the prefix is long brings the
    prefix to the back. *)
Lemma rotate_left_prefix (a b : list Z) :
  Nat.iter (length a) rotate_left1 (a ++ b) = b ++ a.
Proof.
  revert b. induction a as [|x a IH]; intros b.
  - simpl. rewrite app_nil_r. reflexivity.
  - cbn [length]. rewrite Nat.iter_succ_r.
    change (rotate_left1 ((x :: a) ++ b)) with ((a ++ b) ++ [x]).
    rewrite <- app_assoc, IH, <- app_assoc. reflexivity.
Qed.

End DequeFacts.

Module IncrementFacts.
Import Deque DequeFacts.

Lemma grow_replicate n (ws : list Z) : grow n ws = ws ++ replicate n 0.
Proof.
  revert ws. induction n as [|n IH]; intros ws; simpl.
  - rewrite app_nil_r. reflexivity.
  - rewrite IH. unfold append. rewrite <- app_assoc. reflexivity.
Qed.

(** The loop takes the counts back from the rear, last first, and puts
    them, incremented, at the front. *)
Lemma increment_loop_suffix (a b : list Z) :
  increment_loop (length a) (b ++ a) = Some (map Z.succ a ++ b).
Proof.
  revert b. induction a as [|x a IH] using rev_ind; intros b.
  - simpl. rewrite app_nil_r. reflexivity.
  - rewrite length_app, Nat.add_comm. cbn [length Nat.add increment_loop].
    rewrite app_assoc, pop_snoc. unfold appendleft.
    change ((x + 1) :: b ++ a) with (((x + 1) :: b) ++ a).
    rewrite IH, map_app, <- app_assoc. reflexivity.
Qed.

Lemma increment_loop_length n (ws ws' : list Z) :
  increment_loop n ws = Some ws' -> length ws' = length ws.
Proof.
  revert ws. induction n as [|n IH]; intros ws; simpl; [congruence|].
  destruct ws as [|y ws _] using rev_ind; [discriminate|].
  rewrite pop_snoc. intros H. apply IH in H. unfold appendleft in H.
  rewrite length_app. simpl in *. lia.
Qed.

Lemma ceil_div_bounds a w :
  0 < w -> (ceil_div a w - 1) * w < a <= ceil_div a w * w.
Proof.
  intros Hw. unfold ceil_div.
  pose proof (Z.div_mod (- a) w ltac:(lia)).
  pose proof (Z.mod_pos_bound (- a) w Hw). nia.
Qed.

Lemma ceil_div_unique a w q :
  0 < w -> (q - 1) * w < a <= q * w -> ceil_div a w = q.
Proof.
  intros Hw H. pose proof (ceil_div_bounds a w Hw). nia.
Qed.


Lemma ceil_div_mono a b w : 0 < w -> a <= b -> ceil_div a w <= ceil_div b w.
Proof.
  intros Hw Hab. pose proof (ceil_div_bounds a w Hw).
  pose proof (ceil_div_bounds b w Hw). nia.
Qed.

(** What the function computes, for any window size but zero: with a
    positive number [k] of covered windows, the first [k] counts of the
    deque (grown to [k] counts) are incremented; otherwise the deque is
    only rotated. *)
Lemma increment_counts_result ws cws ts te tlen w :
  w <> 0 ->
  let num := ceil_div (te + 1 - cws) w in
  let k := Z.to_nat num in
  let grown := ws ++ replicate (k - length ws)%nat 0 in
  incrementCountsForCoveredWindows ws cws ts te tlen w =
  inr (if 0 <? num then map Z.succ (take k grown) ++ drop k grown
       else rotate (- num) ws).
Proof.
  intros Hw num k grown. unfold incrementCountsForCoveredWindows.
  destruct (Z.eqb_spec w 0) as [|_]; [contradiction|].
  fold num. rewrite grow_replicate.
  replace (Z.to_nat (num - Z.of_nat (length ws))) with (k - length ws)%nat by lia.
  fold k grown. destruct (Z.ltb_spec 0 num) as [Hpos|Hneg].
  - assert (Hlen : (k <= length grown)%nat).
    { unfold grown. rewrite length_app, length_replicate. lia. }
    unfold rotate. destruct (Z.leb_spec 0 (- num)) as [|_]; [lia|].
    replace (Z.to_nat (- - num)) with k by lia.
    assert (Ha : length (take k grown) = k) by (rewrite length_take; lia).
    rewrite <- (take_drop k grown) at 1.
    generalize dependent (take k grown). intros a <-.
    rewrite rotate_left_prefix, increment_loop_suffix. reflexivity.
  - assert (Hk : k = 0%nat) by lia. subst grown. rewrite Hk. simpl.
    rewrite app_nil_r. reflexivity.
Qed.

Lemma increment_counts_length ws cws ts te tlen w ws' :
  incrementCountsForCoveredWindows ws cws ts te tlen w = inr ws' ->
  length ws' = (length ws `max` Z.to_nat (ceil_div (te + 1 - cws) w))%nat.
Proof.
  destruct (Z.eq_dec w 0) as [->|Hw]; [discriminate|].
  rewrite (increment_counts_result ws cws ts te tlen w Hw). intros [= <-].
  destruct (Z.ltb_spec 0 (ceil_div (te + 1 - cws) w)).
  - rewrite length_app, length_map, length_take, length_drop, length_app,
      length_replicate. lia.
  - rewrite length_rotate. lia.
Qed.

End IncrementFacts.



(** ** The loops of the main program *)

Module MainFacts.
Import IncrementFacts.

Section WithWindowSize.

Variable w : Z.
Hypothesis w_pos : 0 < w.
Variable chr_lens : gmap string Z.

Lemma range_pos start stop :
  range start stop w =
  Some (map (fun i : nat => start + Z.of_nat i * w)
            (seq 0 (Z.to_nat (range_len start stop w)))).
Proof.
  unfold range. destruct (Z.eqb_spec w 0); [lia|].
  destruct (Z.ltb_spec 0 w); [reflexivity | lia].
Qed.


Lemma map_const_replicate {A B} (x : B) (l : list A) :
  map (fun _ => x) l = replicate (length l) x.
Proof. induction l; simpl; congruence. Qed.

(** Writing what is left of a chromosome: the stored counts, then a zero
    for every window start up to the length of the chromosome. *)
Lemma finish_chr_done ws chr len cws out :
  finish_chr w (State ws chr len cws out) =
  Done (State [] chr len (cws + Z.of_nat (length ws) * w)
          (out ++ map Count ws ++
           replicate (Z.to_nat (range_len (cws + Z.of_nat (length ws) * w) (len + 1) w))
                     (Count 0))).
Proof.
  unfold finish_chr. cbn [windows current_chr current_chr_len current_window_start stdout].
  rewrite range_pos, map_const_replicate, length_map, length_seq, <- app_assoc.
  reflexivity.
Qed.

Lemma written_length n ws : length (written n ws) = n.
Proof. unfold written. rewrite length_app, length_take, length_replicate. lia. Qed.

Lemma written_S_nil m : written (S m) [] = 0 :: written m [].
Proof. unfold written. rewrite !take_nil. simpl. rewrite Nat.sub_0_r. reflexivity. Qed.

Lemma written_S_cons m c ws : written (S m) (c :: ws) = c :: written m ws.
Proof. reflexivity. Qed.

Lemma written_0 ws : written 0 ws = [].
Proof. unfold written. rewrite take_0. reflexivity. Qed.

Lemma advance_rounds_zero ts cws :
  ts <= cws + w - 1 -> Z.to_nat ((ts - cws) / w) = 0%nat.
Proof.
  intros H. destruct (Z.le_gt_cases cws ts).
  - rewrite Z.div_small by lia. reflexivity.
  - pose proof (Z.div_lt_upper_bound (ts - cws) w 0 w_pos ltac:(lia)). lia.
Qed.

Lemma advance_rounds_succ ts cws :
  cws + w - 1 < ts ->
  Z.to_nat ((ts - cws) / w) = S (Z.to_nat ((ts - (cws + w)) / w)).
Proof.
  intros H. replace (ts - cws) with ((ts - (cws + w)) + 1 * w) by lia.
  rewrite Z.div_add by lia.
  pose proof (Z.div_pos (ts - (cws + w)) w ltac:(lia) w_pos). lia.
Qed.

Lemma advance_done fuel ts ws chr len cws out :
  (Z.to_nat (ts - cws) <= fuel)%nat ->
  let n := Z.to_nat ((ts - cws) / w) in
  advance w fuel ts (State ws chr len cws out) =
  Done (State (drop n ws) chr len (cws + Z.of_nat n * w)
              (out ++ map Count (written n ws))).
Proof.
  revert ws cws out. induction fuel as [|fuel IH]; intros ws cws out Hfuel n; subst n;
    cbn [advance windows current_chr current_chr_len current_window_start stdout];
    destruct (Z.gtb_spec ts (cws + w - 1)) as [Hgt|Hle]; try lia.
  - rewrite (advance_rounds_zero _ _ Hle), written_0, drop_0, app_nil_r, Z.add_0_r.
    reflexivity.
  - rewrite (advance_rounds_succ _ _ Hgt).
    set (m := Z.to_nat ((ts - (cws + w)) / w)).
    destruct ws as [|c ws]; cbn [Deque.popleft]; rewrite IH by lia; fold m;
      [rewrite written_S_nil, !drop_nil | rewrite written_S_cons];
      cbn [map drop]; rewrite <- app_assoc; cbn [app];
      do 2 f_equal; lia.
  - rewrite (advance_rounds_zero _ _ Hle), written_0, drop_0, app_nil_r, Z.add_0_r.
    reflexivity.
Qed.
Lemma add_covered_length k ws : length (add_covered k ws) = (length ws `max` k)%nat.
Proof.
  unfold add_covered.
  rewrite length_app, length_map, length_take, length_drop, length_app, length_replicate.
  lia.
Qed.

Lemma add_covered_0 ws : add_covered 0 ws = ws.
Proof. unfold add_covered. rewrite take_0, drop_0. simpl. apply app_nil_r. Qed.

(** The counting step when the span does not end before the front window. *)
Lemma increment_counts_covered ws cws ts te tlen :
  0 <= ceil_div (te + 1 - cws) w ->
  incrementCountsForCoveredWindows ws cws ts te tlen w =
  inr (add_covered (Z.to_nat (ceil_div (te + 1 - cws) w)) ws).
Proof.
  intros H. rewrite increment_counts_result by lia.
  destruct (Z.ltb_spec 0 (ceil_div (te + 1 - cws) w)); [reflexivity|].
  replace (ceil_div (te + 1 - cws) w) with 0 by lia.
  rewrite add_covered_0. reflexivity.
Qed.

Lemma increment_counts_total ws cws ts te tlen :
  exists ws', incrementCountsForCoveredWindows ws cws ts te tlen w = inr ws'.
Proof. rewrite increment_counts_result by lia. eauto. Qed.

(** A mapped record on the current chromosome: the windows before the one
    of its start are written, then the windows it covers are counted. *)
Lemma process_record_same ws chr len cws out r :
  cigar r <> "*"%string -> chr = target_name r ->
  let n := Z.to_nat ((target_start r - cws) / w) in
  let cws' := cws + Z.of_nat n * w in
  exists ws',
    incrementCountsForCoveredWindows (drop n ws) cws' (target_start r)
      (last_base r) (span r) w = inr ws' /\
    process_record w chr_lens (State ws chr len cws out) r =
    Done (State ws' chr len cws' (out ++ map Count (written n ws))).
Proof.
  intros Hc Hchr n cws'. unfold process_record.
  destruct (decide (cigar r = "*"%string)) as [|_]; [contradiction|].
  cbn [current_chr]. destruct (decide (chr = target_name r)) as [_|]; [|contradiction].
  cbn [bind]. unfold advance_fuel. cbn [current_window_start].
  rewrite advance_done by lia. cbn [bind windows current_window_start stdout
    current_chr current_chr_len]. fold n cws' (span r) (last_base r).
  destruct (increment_counts_total (drop n ws) cws' (target_start r) (last_base r) (span r))
    as [ws' E]. exists ws'. rewrite E. split; reflexivity.
Qed.

(** A mapped record on another chromosome: the old one is finished and the
    new one set up; from there the record is on the current chromosome. *)
Lemma process_record_other st r :
  cigar r <> "*"%string -> current_chr st <> target_name r ->
  process_record w chr_lens st r =
  (st' <- next_chr w chr_lens st (target_name r) ;; process_record w chr_lens st' r).
Proof.
  intros Hc Hchr. unfold process_record at 1.
  destruct (decide (cigar r = "*"%string)) as [|_]; [contradiction|].
  destruct (decide (current_chr st = target_name r)) as [|_]; [contradiction|].
  destruct (next_chr w chr_lens st (target_name r)) as [st'| |] eqn:E;
    cbn [bind]; try reflexivity.
  assert (Hst' : current_chr st' = target_name r).
  { unfold next_chr in E. destruct (finish_chr w st); cbn [bind] in E; try discriminate.
    destruct (chr_lens !! target_name r); [|discriminate].
    injection E as <-. reflexivity. }
  unfold process_record.
  destruct (decide (cigar r = "*"%string)) as [|_]; [contradiction|].
  destruct (decide (current_chr st' = target_name r)) as [_|]; [|contradiction].
  reflexivity.
Qed.

Lemma next_chr_known ws chr len cws out name len' :
  chr_lens !! name = Some len' ->
  next_chr w chr_lens (State ws chr len cws out) name =
  Done (State [] name len' 1
          ((out ++ map Count ws ++
            replicate (Z.to_nat (range_len (cws + Z.of_nat (length ws) * w) (len + 1) w))
                      (Count 0)) ++ [FixedStep name 1 w w])).
Proof.
  intros H. unfold next_chr. rewrite finish_chr_done. cbn [bind].
  rewrite H. reflexivity.
Qed.

Lemma next_chr_unknown ws chr len cws out name :
  chr_lens !! name = None ->
  next_chr w chr_lens (State ws chr len cws out) name =
  Raised (SAMformatException
            "SAM alignment record had RNAME value not present in SAM @SQ headers")
         (out ++ map Count ws ++
          replicate (Z.to_nat (range_len (cws + Z.of_nat (length ws) * w) (len + 1) w))
                    (Count 0)).
Proof.
  intros H. unfold next_chr. rewrite finish_chr_done. cbn [bind].
  rewrite H. reflexivity.
Qed.

Lemma process_record_unmapped st name start :
  process_record w chr_lens st (SamRecord name start "*") = Done st.
Proof. reflexivity. Qed.

Lemma process_records_app st rs1 rs2 :
  process_records w chr_lens st (rs1 ++ rs2) =
  (st' <- process_records w chr_lens st rs1 ;; process_records w chr_lens st' rs2).
Proof.
  revert st. induction rs1 as [|r rs1 IH]; intros st; [reflexivity|].
  cbn [app process_records]. destruct (process_record w chr_lens st r); cbn [bind]; auto.
Qed.

End WithWindowSize.

End MainFacts.

Import IncrementFacts MainFacts.

(** ** The fuel of the advance loop *)

Module AdvanceFacts.

(** With a positive window size the loop ends within the fuel the main
    loop gives it. *)
Lemma advance_total w ts st :
  0 < w -> exists st', advance w (advance_fuel ts st) ts st = Done st'.
Proof.
  intros Hw. destruct st as [ws chr len cws out]. unfold advance_fuel.
  cbn [current_window_start]. rewrite (advance_done w Hw) by lia. eauto.
Qed.

(** More fuel does not change where the loop ends. *)
Lemma advance_more_fuel w fuel fuel' ts st st' :
  (fuel <= fuel')%nat ->
  advance w fuel ts st = Done st' -> advance w fuel' ts st = Done st'.
Proof.
  revert fuel' st. induction fuel as [|fuel IH]; intros fuel' st Hle;
    cbn [advance].
  - destruct (ts >? current_window_start st + w - 1) eqn:E; [discriminate|].
    intros [= <-]. destruct fuel'; cbn [advance]; rewrite E; reflexivity.
  - destruct fuel' as [|fuel']; [lia|]. cbn [advance].
    destruct (ts >? current_window_start st + w - 1); [|auto].
    destruct (Deque.popleft (windows st)) as [[c ws']|]; apply IH; lia.
Qed.

(** With a window size that is not positive, a loop that is entered never
    ends: the window start does not get any closer to the record. *)
Lemma advance_never_ends w fuel ts st :
  w <= 0 -> ts > current_window_start st + w - 1 ->
  advance w fuel ts st = Diverged.
Proof.
  intros Hw. revert st. induction fuel as [|fuel IH]; intros st Hts; cbn [advance];
    destruct (Z.gtb_spec ts (current_window_start st + w - 1)); try lia;
    [reflexivity|].
  destruct (Deque.popleft (windows st)) as [[c ws']|]; apply IH;
    cbn [current_window_start]; lia.
Qed.

End AdvanceFacts.

(** ** Single records *)

(** C9: a record whose CIGAR field is the marker [*] of an unmapped read
    changes nothing, whatever its name and position: the iteration ends in
    the very state it started from (same deque, same chromosome, length and
    window start, same lines written). *)
Theorem unmapped_record_changes_nothing
    (w : Z) (chr_lens : gmap string Z) (st : state) (name : string) (start : Z) :
  process_record w chr_lens st (SamRecord name start "*") = Done st.
Proof. reflexivity. Qed.

(** C5: with [chr1] of length 10 in the header, windows of 5 and a single
    mapped record at position 7 whose CIGAR consumes 2 reference
    positions, the script writes two counts for [chr1]: 0 for the first
    window and 1 for the second. *)
Theorem scenario_B_gap_then_hit
    (track : string) (chr_lens : gmap string Z) (c : string) :
  chr_lens !! "chr1"%string = Some 10 ->
  c <> "*"%string ->
  sumTargetConsumingCigarOps c = 2 ->
  main 5 track chr_lens [SamRecord "chr1" 7 c] =
  Done [TrackDef track; FixedStep "chr1" 1 5 5; Count 0; Count 1].
Proof.
  intros Hlen Hc Hspan.
  unfold main, process_records, initial_state.
  rewrite process_record_other by (cbn; congruence || done).
  cbn [target_name]. rewrite (next_chr_known 5 ltac:(lia) _ _ _ _ _ _ _ 10 Hlen).
  cbn [bind]. unfold process_record. cbn [cigar target_name target_start current_chr].
  destruct (decide (c = "*"%string)) as [|_]; [contradiction|].
  rewrite Hspan. reflexivity.
Qed.

Lemma scenario_B_gap_then_hit_witness :
  main 5 "Coverage" {["chr1"%string := 10]} [SamRecord "chr1" 7 "2M"] =
  Done [TrackDef "Coverage"; FixedStep "chr1" 1 5 5; Count 0; Count 1].
Proof.
  apply scenario_B_gap_then_hit; [reflexivity | discriminate | reflexivity].
Defined.

(** The two other single-chromosome scenarios of the specification:
    one record over both windows, and two records on adjacent windows. *)
Example scenario_A_both_windows :
  main 5 "Coverage" {["chr1"%string := 10]} [SamRecord "chr1" 1 "10M"] =
  Done [TrackDef "Coverage"; FixedStep "chr1" 1 5 5; Count 1; Count 1].
Proof. reflexivity. Qed.

Example scenario_C_adjacent_windows :
  main 5 "Coverage" {["chr1"%string := 10]}
       [SamRecord "chr1" 1 "5M"; SamRecord "chr1" 6 "5M"] =
  Done [TrackDef "Coverage"; FixedStep "chr1" 1 5 5; Count 1; Count 1].
Proof. reflexivity. Qed.

(** Without any tabular line the header loop fails on the empty line of
    end-of-input; a window size of zero fails at the first chromosome. *)
Example no_tabular_line :
  main 5 "Coverage" {["chr1"%string := 10]} [] =
  Raised IndexError [TrackDef "Coverage"].
Proof. reflexivity. Qed.

Example window_size_zero :
  main 0 "Coverage" {["chr1"%string := 10]} [SamRecord "chr1" 1 "5M"] =
  Raised ValueError [TrackDef "Coverage"].
Proof. reflexivity. Qed.

(** *** Records that consume no reference position *)




(** The claim C10, that a mapped record of span zero starting in the front
    window leaves the deque as it was, does not hold: when the record starts
    after the first base of the window, the window is counted as covered.
    Here the deque is empty before the record and holds a count of 1
    after it. *)
Lemma zero_span_record_is_counted :
  let st := State [] "chr1" 10 1 [TrackDef "Coverage"; FixedStep "chr1" 1 5 5] in
  let r := SamRecord "chr1" 3 "5I" in
  cigar r <> "*"%string /\
  span r = 0 /\
  current_window_start st <= target_start r <= current_window_start st + 5 - 1 /\
  process_record 5 {["chr1"%string := 10]} st r =
    Done (State [1] "chr1" 10 1 [TrackDef "Coverage"; FixedStep "chr1" 1 5 5]) /\
  process_record 5 {["chr1"%string := 10]} st r <> Done st.
Proof. repeat split; discriminate. Qed.

(** What the counting step makes of a span of zero that starts in the
    front window. *)
Lemma zero_span_windows_covered w cws ts :
  0 < w -> cws <= ts <= cws + w - 1 ->
  ceil_div (ts + 0 - 1 + 1 - cws) w = if decide (ts = cws) then 0 else 1.
Proof.
  intros Hw Hts. apply ceil_div_unique; [exact Hw|].
  destruct (decide (ts = cws)); lia.
Qed.

(** C10, amended: for a mapped record of span zero on the current
    chromosome that starts in the front window, the iteration raises
    nothing, writes nothing and leaves the chromosome, its length and the
    window start as they were; the deque is left as it was when the record
    starts on the first base of the window. *)
Theorem zero_span_record_in_front_window
    (w : Z) (chr_lens : gmap string Z)
    (ws : list Z) (chr : string) (len cws : Z) (out : list line) (r : sam_record) :
  0 < w ->
  cigar r <> "*"%string ->
  span r = 0 ->
  target_name r = chr ->
  cws <= target_start r <= cws + w - 1 ->
  exists ws',
    process_record w chr_lens (State ws chr len cws out) r =
      Done (State ws' chr len cws out) /\
    (target_start r = cws -> ws' = ws).
Proof.
  intros Hw Hc Hspan Hchr Hts.
  destruct (process_record_same w Hw chr_lens ws chr len cws out r Hc (eq_sym Hchr))
    as (ws' & Hinc & ->).
  rewrite (advance_rounds_zero w Hw) in * by lia.
  rewrite written_0, drop_0, app_nil_r in *. rewrite Z.add_0_r in *.
  exists ws'. split; [reflexivity|].
  intros Hstart.
  assert (Hnum : ceil_div (last_base r + 1 - cws) w = 0).
  { unfold last_base. rewrite Hspan, (zero_span_windows_covered w cws _ Hw Hts).
    destruct (decide (target_start r = cws)); [reflexivity | contradiction]. }
  rewrite increment_counts_covered, Hnum in Hinc by lia.
  change (Z.to_nat 0) with 0%nat in Hinc. rewrite add_covered_0 in Hinc. congruence.
Qed.

Lemma zero_span_record_in_front_window_witness :
  exists ws',
    process_record 5 {["chr1"%string := 10]}
      (State [2; 1] "chr1" 10 6 [TrackDef "Coverage"; FixedStep "chr1" 1 5 5; Count 4])
      (SamRecord "chr1" 6 "5I") =
      Done (State ws' "chr1" 10 6
              [TrackDef "Coverage"; FixedStep "chr1" 1 5 5; Count 4]) /\
    (6 = 6 -> ws' = [2; 1]).
Proof.
  apply (zero_span_record_in_front_window 5 {["chr1"%string := 10]} [2; 1] "chr1" 10 6
           [TrackDef "Coverage"; FixedStep "chr1" 1 5 5; Count 4]
           (SamRecord "chr1" 6 "5I"));
    [lia | discriminate | reflexivity | reflexivity | cbn; lia].
Defined.

(** Beyond the first base of the window, the record is counted once. *)
Lemma zero_span_record_after_window_start
    (w : Z) (chr_lens : gmap string Z)
    (ws : list Z) (chr : string) (len cws : Z) (out : list line) (r : sam_record) :
  0 < w -> cigar r <> "*"%string -> span r = 0 -> target_name r = chr ->
  cws < target_start r <= cws + w - 1 ->
  process_record w chr_lens (State ws chr len cws out) r =
  Done (State (add_covered 1 ws) chr len cws out).
Proof.
  intros Hw Hc Hspan Hchr Hts.
  destruct (process_record_same w Hw chr_lens ws chr len cws out r Hc (eq_sym Hchr))
    as (ws' & Hinc & ->).
  rewrite (advance_rounds_zero w Hw) in * by lia.
  rewrite written_0, drop_0, app_nil_r in *. rewrite Z.add_0_r in *.
  assert (Hnum : ceil_div (last_base r + 1 - cws) w = 1).
  { unfold last_base. rewrite Hspan, (zero_span_windows_covered w cws _ Hw) by lia.
    destruct (decide (target_start r = cws)); [lia | reflexivity]. }
  rewrite increment_counts_covered, Hnum in Hinc by lia.
  change (Z.to_nat 1) with 1%nat in Hinc. congruence.
Qed.

(** ** What a run declares *)

Module DeclaredFacts.

Section AnyWindowSize.

Variable w : Z.
Variable chr_lens : gmap string Z.

Lemma declared_chrs_app out1 out2 :
  declared_chrs (out1 ++ out2) = declared_chrs out1 ++ declared_chrs out2.
Proof. apply omap_app. Qed.

Lemma declared_chrs_counts (cs : list Z) : declared_chrs (map Count cs) = [].
Proof. induction cs; simpl; auto. Qed.

Lemma declared_chrs_zeros {A} (l : list A) :
  declared_chrs (map (fun _ => Count 0) l) = [].
Proof. induction l; simpl; auto. Qed.

(** Finishing a chromosome and advancing the window only write counts. *)
Lemma finish_chr_declared st out :
  lines_written (finish_chr w st) = Some out ->
  declared_chrs out = declared_chrs (stdout st).
Proof.
  unfold finish_chr. destruct (range _ _ _); cbn [lines_written stdout]; intros [= <-];
    rewrite !declared_chrs_app, ?declared_chrs_counts, ?declared_chrs_zeros, ?app_nil_r;
    reflexivity.
Qed.

Lemma advance_declared fuel ts st out :
  lines_written (advance w fuel ts st) = Some out ->
  declared_chrs out = declared_chrs (stdout st).
Proof.
  revert st. induction fuel as [|fuel IH]; intros st; cbn [advance];
    destruct (ts >? current_window_start st + w - 1).
  - discriminate.
  - intros [= <-]. reflexivity.
  - destruct (Deque.popleft (windows st)) as [[c ws']|]; intros H; apply IH in H;
      cbn [stdout] in H; rewrite declared_chrs_app in H; simpl in H;
      rewrite app_nil_r in H; exact H.
  - intros [= <-]. reflexivity.
Qed.


Lemma advance_not_raised fuel ts st e out :
  advance w fuel ts st <> Raised e out.
Proof.
  revert st. induction fuel as [|fuel IH]; intros st; cbn [advance];
    destruct (ts >? current_window_start st + w - 1); try discriminate.
  destruct (Deque.popleft (windows st)) as [[c ws']|]; apply IH.
Qed.

(** A property of the names declared so far extends over an iteration,
    provided the name of a mapped record that is in the header has it. *)
Lemma process_record_declared (P : string -> Prop) st r out :
  Forall P (declared_chrs (stdout st)) ->
  (cigar r <> "*"%string -> is_Some (chr_lens !! target_name r) -> P (target_name r)) ->
  lines_written (process_record w chr_lens st r) = Some out ->
  Forall P (declared_chrs out).
Proof.
  intros Hst Hr. unfold process_record.
  destruct (decide (cigar r = "*"%string)) as [|Hc]; [intros [= <-]; exact Hst|].
  assert (H1 : forall out1,
    lines_written (if decide (current_chr st = target_name r) then Done st
                   else next_chr w chr_lens st (target_name r)) = Some out1 ->
    Forall P (declared_chrs out1)).
  { intros out1. destruct (decide (current_chr st = target_name r)); [intros [= <-]; exact Hst|].
    unfold next_chr. pose proof (finish_chr_declared st) as Hf.
    destruct (finish_chr w st) as [st1|e o|]; cbn [bind lines_written] in *;
      [|intros [= <-]; rewrite (Hf _ eq_refl); exact Hst | discriminate].
    specialize (Hf _ eq_refl).
    destruct (chr_lens !! target_name r) as [len|] eqn:E; cbn [lines_written stdout];
      intros [= <-]; [|rewrite Hf; exact Hst].
    rewrite declared_chrs_app, Hf. apply Forall_app. split; [exact Hst|].
    repeat constructor. apply Hr; [exact Hc | eauto]. }
  destruct (if decide (current_chr st = target_name r) then Done st
            else next_chr w chr_lens st (target_name r)) as [st1|e o|];
    cbn [bind lines_written]; [|intros [= <-]; exact (H1 o eq_refl) | discriminate].
  specialize (H1 _ eq_refl).
  pose proof (advance_declared (advance_fuel (target_start r) st1) (target_start r) st1) as Ha.
  destruct (advance w _ (target_start r) st1) as [st2|e o|]; cbn [bind lines_written] in *;
    [|intros [= <-]; rewrite (Ha _ eq_refl); exact H1 | discriminate].
  specialize (Ha _ eq_refl).
  destruct (incrementCountsForCoveredWindows _ _ _ _ _ _); cbn [lines_written stdout];
    intros [= <-]; rewrite Ha; exact H1.
Qed.

Lemma process_records_declared (P : string -> Prop) records st out :
  Forall P (declared_chrs (stdout st)) ->
  Forall (fun r => cigar r <> "*"%string -> is_Some (chr_lens !! target_name r) ->
                   P (target_name r)) records ->
  lines_written (process_records w chr_lens st records) = Some out ->
  Forall P (declared_chrs out).
Proof.
  revert st. induction records as [|r records IH]; intros st Hst Hrs;
    cbn [process_records]; [intros [= <-]; exact Hst|].
  apply Forall_cons in Hrs as [Hr Hrs].
  pose proof (process_record_declared P st r) as H1.
  destruct (process_record w chr_lens st r) as [st1|e o|]; cbn [bind lines_written] in *;
    [|intros [= <-]; apply H1; auto | discriminate].
  apply IH; [apply H1; auto | exact Hrs].
Qed.

Lemma main_declared (P : string -> Prop) track records out :
  Forall (fun r => cigar r <> "*"%string -> is_Some (chr_lens !! target_name r) ->
                   P (target_name r)) records ->
  printed (main w track chr_lens records) = Some out ->
  Forall P (declared_chrs out).
Proof.
  intros Hrs. unfold main. destruct records as [|r records]; [intros [= <-]; constructor|].
  pose proof (process_records_declared P (r :: records) (initial_state track) ) as H1.
  destruct (process_records w chr_lens (initial_state track) (r :: records)) as [st|e o|];
    cbn [bind printed lines_written] in *;
    [|intros [= <-]; apply H1; auto; constructor | discriminate].
  specialize (H1 _ ltac:(constructor) Hrs eq_refl).
  pose proof (finish_chr_declared st) as Hf.
  destruct (finish_chr w st) as [st'|e o|]; cbn [bind printed lines_written] in *;
    [| |discriminate]; intros [= <-]; rewrite (Hf _ eq_refl); exact H1.
Qed.

End AnyWindowSize.

(** A chromosome that is not declared has no line. *)
Lemma lines_from_undeclared chr out :
  chr ∉ declared_chrs out -> lines_from chr false out = [].
Proof.
  induction out as [|l out IH]; [reflexivity|].
  destruct l as [t|c s st sp|n]; cbn [declared_chrs omap lines_from];
    fold (declared_chrs out); try exact IH.
  intros [Hne H]%not_elem_of_cons.
  destruct (decide (c = chr)) as [->|_]; [contradiction | exact (IH H)].
Qed.

End DeclaredFacts.

(** *** Chromosomes without records *)

(** The claim C3, that a chromosome of the header without any record gets
    its windows written as zeros, does not hold: the script writes a
    chromosome when a mapped record names it, and only then.  In scenario D
    the only count written is the 1 of [chr2]; [chr1], with one window
    ([ceil(5 / 5) = 1]), has no line at all. *)
Lemma scenario_D_writes_nothing_for_chr1 :
  let chr_lens : gmap string Z := {["chr1"%string := 5; "chr2"%string := 5]} in
  let out := [TrackDef "Coverage"; FixedStep "chr2" 1 5 5; Count 1] in
  chr_lens !! "chr1"%string = Some 5 /\
  ceil_div 5 5 = 1 /\
  main 5 "Coverage" chr_lens [SamRecord "chr2" 1 "5M"] = Done out /\
  lines_for "chr1" out = [] /\
  counts_of out = [1] /\
  counts_of out <> [0; 1].
Proof. repeat split; discriminate. Qed.

(** C3, amended: a chromosome that no mapped record of the stream names has
    no line in the output, neither a step declaration nor a count, whether
    the header declares it or not; in scenario D the output is the track
    line, the step declaration of [chr2] and the count 1 of its only
    window. *)
Theorem unvisited_chromosome_has_no_lines :
  (forall (w : Z) (track : string) (chr_lens : gmap string Z)
          (records : list sam_record) (chr : string) (out : list line),
      chr ∉ map target_name (mapped_records records) ->
      printed (main w track chr_lens records) = Some out ->
      lines_for chr out = []) /\
  (forall track : string,
      main 5 track {["chr1"%string := 5; "chr2"%string := 5]}
           [SamRecord "chr2" 1 "5M"] =
      Done [TrackDef track; FixedStep "chr2" 1 5 5; Count 1]).
Proof.
  split; [|reflexivity].
  intros w track chr_lens records chr out Hchr Hout.
  apply DeclaredFacts.lines_from_undeclared. intros Hin.
  apply Hchr.
  assert (HP : Forall (fun c => c ∈ map target_name (mapped_records records))
                      (declared_chrs out)).
  { apply (DeclaredFacts.main_declared w chr_lens _ track records out); [|exact Hout].
    apply Forall_forall. intros r Hr Hc _.
    apply list_elem_of_In, in_map, list_elem_of_In.
    apply list_elem_of_filter. split; assumption. }
  rewrite Forall_forall in HP. exact (HP _ Hin).
Qed.

Lemma unvisited_chromosome_has_no_lines_witness :
  lines_for "chr1"
    [TrackDef "Coverage"; FixedStep "chr2" 1 5 5; Count 1; FixedStep "chr3" 1 5 5;
     Count 0; Count 1] = [].
Proof.
  apply (proj1 unvisited_chromosome_has_no_lines 5 "Coverage"
           {["chr1"%string := 5; "chr2"%string := 5; "chr3"%string := 10]}
           [SamRecord "chr2" 1 "5M"; SamRecord "chr1" 1 "*"; SamRecord "chr3" 8 "1M"]).
  - vm_compute. intros H. repeat (apply elem_of_cons in H as [H|H]; [discriminate H|]).
    inversion H.
  - reflexivity.
Defined.

(** *** Records on a chromosome that the header lacks *)

Module ReachFacts.


Section AnyWindowSize.

Variable w : Z.
Variable chr_lens : gmap string Z.



End AnyWindowSize.

End ReachFacts.



(** The empty name is not looked up when it comes first: it is the current
    chromosome the script starts from.  The record is counted, and no step
    declaration is written for it. *)
Lemma empty_name_is_not_looked_up :
  main 5 "Coverage" {["chr1"%string := 10]} [SamRecord "" 1 "3M"] =
  Done [TrackDef "Coverage"; Count 1].
Proof. reflexivity. Qed.

(** ** The size of the deque *)

Module BufferFacts.

Section WithWindowSize.

Variable w : Z.
Hypothesis w_pos : 0 < w.
Variable chr_lens : gmap string Z.

(** Where the advance loop stops: at the window of the start, when the
    start is not behind the window already. *)
Lemma advance_stops ts cws :
  let cws' := cws + Z.of_nat (Z.to_nat ((ts - cws) / w)) * w in
  ts <= cws' + w - 1 /\ (cws <= ts -> cws' <= ts).
Proof.
  intros cws'. subst cws'. destruct (Z.le_gt_cases cws ts) as [Hle|Hgt].
  - pose proof (Z.div_pos (ts - cws) w ltac:(lia) w_pos).
    pose proof (Z.div_mod (ts - cws) w ltac:(lia)).
    pose proof (Z.mod_pos_bound (ts - cws) w w_pos). nia.
  - pose proof (Z.div_lt_upper_bound (ts - cws) w 0 w_pos ltac:(lia)).
    replace (Z.to_nat ((ts - cws) / w)) with 0%nat by lia. lia.
Qed.

(** A span that starts in or before the front window covers at most one
    window more than its length in windows. *)
Lemma covered_windows_bound ts sp cws :
  ts <= cws + w - 1 ->
  ceil_div (ts + sp - 1 + 1 - cws) w <= ceil_div sp w + 1.
Proof.
  intros Hts. pose proof (ceil_div_bounds sp w w_pos).
  pose proof (ceil_div_bounds (ts + sp - 1 + 1 - cws) w w_pos). nia.
Qed.

Lemma process_record_buffer st r st' :
  cigar r <> "*"%string ->
  process_record w chr_lens st r = Done st' ->
  (length (windows st') <=
   length (windows st) `max` Z.to_nat (ceil_div (span r) w + 1))%nat.
Proof.
  assert (Hsame : forall ws chr len cws out,
    cigar r <> "*"%string -> chr = target_name r ->
    process_record w chr_lens (State ws chr len cws out) r = Done st' ->
    (length (windows st') <= length ws `max` Z.to_nat (ceil_div (span r) w + 1))%nat).
  { intros ws chr len cws out Hc Hchr.
    destruct (process_record_same w w_pos chr_lens ws chr len cws out r Hc Hchr)
      as (ws' & Hinc & ->).
    intros [= <-]. cbn [windows].
    rewrite (increment_counts_length _ _ _ _ _ _ _ Hinc), length_drop.
    destruct (advance_stops (target_start r) cws) as [Hts _].
    pose proof (covered_windows_bound (target_start r) (span r) _ Hts) as Hb.
    fold (last_base r) in Hb. lia. }
  intros Hc. destruct st as [ws chr len cws out]. cbn [windows].
  destruct (decide (chr = target_name r)) as [Heq|Hne]; [exact (Hsame _ _ _ _ _ Hc Heq)|].
  rewrite process_record_other by assumption. cbn [target_name].
  destruct (chr_lens !! target_name r) as [len'|] eqn:E.
  - rewrite (next_chr_known w w_pos _ _ _ _ _ _ _ len' E). cbn [bind].
    intros H. apply Hsame in H; [cbn [length] in H; lia | exact Hc | reflexivity].
  - rewrite (next_chr_unknown w w_pos _ _ _ _ _ _ _ E). discriminate.
Qed.

Lemma longest_span_nonneg records : 0 <= longest_span records.
Proof.
  induction records as [|r records IH]; cbn [longest_span]; [lia|].
  destruct (decide (cigar r = "*"%string)); lia.
Qed.

Lemma longest_span_app rs1 rs2 :
  longest_span (rs1 ++ rs2) = Z.max (longest_span rs1) (longest_span rs2).
Proof.
  induction rs1 as [|r rs1 IH]; cbn [app longest_span].
  - pose proof (longest_span_nonneg rs2). lia.
  - destruct (decide (cigar r = "*"%string)); lia.
Qed.

(** The bound, from any state: [b] is a span that accounts for the deque
    at the start. *)
Lemma process_records_buffer records st st' b :
  Z.of_nat (length (windows st)) <= Z.max 1 (ceil_div b w + 1) ->
  process_records w chr_lens st records = Done st' ->
  Z.of_nat (length (windows st')) <=
  Z.max 1 (ceil_div (Z.max b (longest_span records)) w + 1).
Proof.
  revert st b. induction records as [|r records IH]; intros st b Hst;
    cbn [process_records longest_span].
  - intros [= <-]. pose proof (ceil_div_mono b (Z.max b 0) w w_pos ltac:(lia)). lia.
  - destruct (process_record w chr_lens st r) as [st1| |] eqn:E; cbn [bind];
      try discriminate.
    destruct (decide (cigar r = "*"%string)) as [Hc|Hc].
    + destruct r as [name start c]. cbn [cigar] in Hc. subst c.
      rewrite process_record_unmapped in E. injection E as <-. apply IH. exact Hst.
    + intros H. apply (IH st1 (Z.max b (span r))) in H.
      * replace (Z.max b (Z.max (span r) (longest_span records)))
          with (Z.max (Z.max b (span r)) (longest_span records)) by lia. exact H.
      * pose proof (process_record_buffer st r st1 Hc E).
        pose proof (ceil_div_mono b (Z.max b (span r)) w w_pos ltac:(lia)).
        pose proof (ceil_div_mono (span r) (Z.max b (span r)) w w_pos ltac:(lia)).
        lia.
Qed.

End WithWindowSize.

End BufferFacts.

(** C8: with a positive window size, after any number of records of any
    stream (sorted or not) the deque holds at most
    [max(1, ceil(longest_span / window_size) + 1)] counts, where
    [longest_span] is the longest span among the mapped records read so
    far.  Neither the length of a chromosome nor a position enters the
    bound. *)
Theorem buffer_is_bounded_by_longest_span
    (w : Z) (track : string) (chr_lens : gmap string Z)
    (records : list sam_record) (st : state) :
  0 < w ->
  process_records w chr_lens (initial_state track) records = Done st ->
  Z.of_nat (length (windows st)) <=
  Z.max 1 (ceil_div (longest_span records) w + 1).
Proof.
  intros Hw H.
  apply (BufferFacts.process_records_buffer w Hw chr_lens records _ st 0) in H.
  - pose proof (BufferFacts.longest_span_nonneg records).
    replace (Z.max 0 (longest_span records)) with (longest_span records) in H by lia.
    exact H.
  - cbn. lia.
Qed.

Lemma buffer_is_bounded_by_longest_span_witness :
  Z.of_nat (length [2; 1; 1]) <=
  Z.max 1 (ceil_div (longest_span [SamRecord "chr1" 3 "4M"; SamRecord "chr1" 9 "8M2I"]) 5 + 1).
Proof.
  apply (buffer_is_bounded_by_longest_span 5 "Coverage" {["chr1"%string := 100]}
           [SamRecord "chr1" 3 "4M"; SamRecord "chr1" 9 "8M2I"]
           (State [2; 1; 1] "chr1" 100 6
                  [TrackDef "Coverage"; FixedStep "chr1" 1 5 5; Count 1]));
    [lia | reflexivity].
Defined.

(** ** The coverage track of a sorted stream *)

Module CountsFacts.

Section Counts.

Variable w : Z.


Lemma counts_from_0 f s : counts_from f w s 0 = [].
Proof. reflexivity. Qed.









End Counts.

End CountsFacts.

Module CoverageFacts.
Import CountsFacts BufferFacts.









End CoverageFacts.

Module RunFacts.
Import CountsFacts BufferFacts CoverageFacts.

Section OneChromosome.

Variable w : Z.
Hypothesis w_pos : 0 < w.
Variable chr_lens : gmap string Z.
Variable name : string.
Variable len : Z.
Hypothesis len_nonneg : 0 <= len.
Variable out0 : list line.




End OneChromosome.

End RunFacts.

Module RunsFacts.
Import CountsFacts BufferFacts CoverageFacts RunFacts.

(** *** The runs of a stream *)

Lemma mapped_records_cons r records :
  mapped_records (r :: records) =
  if decide (cigar r = "*"%string) then mapped_records records
  else r :: mapped_records records.
Proof.
  unfold mapped_records. rewrite filter_cons.
  destruct (decide (cigar r <> "*"%string)), (decide (cigar r = "*"%string));
    try reflexivity; contradiction.
Qed.




(** The records the loop skips do not matter. *)
Lemma process_records_mapped w chr_lens st records :
  process_records w chr_lens st records =
  process_records w chr_lens st (mapped_records records).
Proof.
  revert st. induction records as [|r records IH]; intros st; [reflexivity|].
  rewrite mapped_records_cons. cbn [process_records].
  destruct (decide (cigar r = "*"%string)) as [Hc|Hc].
  - unfold process_record. destruct (decide (cigar r = "*"%string)); [|contradiction].
    cbn [bind]. apply IH.
  - cbn [process_records]. destruct (process_record w chr_lens st r); cbn [bind]; auto.
Qed.

(** *** The order of first occurrence *)




(** *** The windows of a chromosome *)



(** *** From one chromosome to the next *)

Section Runs.

Variable w : Z.
Hypothesis w_pos : 0 < w.
Variable chr_lens : gmap string Z.


End Runs.

End RunsFacts.

Module TrackFacts.
Import CoverageFacts RunsFacts.



End TrackFacts.



(** ** The header loop and the fields of a line *)

Module InputFacts.
Import Input.

Lemma append_nil_l (t : string) : EmptyString +:+ t = t.
Proof. reflexivity. Qed.

Lemma append_cons c (s t : string) : String c s +:+ t = String c (s +:+ t).
Proof. reflexivity. Qed.

Lemma append_nil_r (s : string) : s +:+ EmptyString = s.
Proof. induction s as [|c s IH]; [reflexivity|]. rewrite append_cons, IH. reflexivity. Qed.

Lemma append_assoc (s t u : string) : (s +:+ t) +:+ u = s +:+ (t +:+ u).
Proof.
  induction s as [|c s IH]; [reflexivity|]. rewrite !append_cons, IH. reflexivity.
Qed.

(** *** The value of a tag *)

Lemma until_tab_shorter s v rest :
  until_tab s = (v, rest) ->
  (String.length rest + String.length v = String.length s)%nat.
Proof.
  revert v rest. induction s as [|c s IH]; intros v rest; cbn [until_tab].
  - intros [= <- <-]. reflexivity.
  - destruct (Ascii.eqb c tab); [intros [= <- <-]; cbn; lia|].
    destruct (until_tab s) as [v' rest']. intros [= <- <-].
    specialize (IH _ _ eq_refl). cbn [String.length]. lia.
Qed.

Lemma until_tab_nonempty_tab_free s v rest :
  until_tab s = (v, rest) -> tab_free v = true.
Proof.
  revert v rest. induction s as [|c s IH]; intros v rest; cbn [until_tab].
  - intros [= <- <-]. reflexivity.
  - destruct (Ascii.eqb c tab) eqn:E; [intros [= <- <-]; reflexivity|].
    destruct (until_tab s) as [v' rest']. intros [= <- <-].
    cbn [tab_free]. rewrite E, (IH _ _ eq_refl). reflexivity.
Qed.

(** A value ends at the end of the text or before a tab. *)
Lemma until_tab_value v rest :
  tab_free v = true ->
  rest = EmptyString \/ (exists t, rest = String tab t) ->
  until_tab (v +:+ rest) = (v, rest).
Proof.
  intros Hv Hrest. induction v as [|c v IH].
  - rewrite append_nil_l. destruct Hrest as [->|[t ->]]; [reflexivity|].
    cbn [until_tab]. rewrite Ascii.eqb_refl. reflexivity.
  - cbn [tab_free] in Hv. apply andb_prop in Hv as [Hc Hv].
    rewrite append_cons. cbn [until_tab].
    apply negb_true_iff in Hc. rewrite Hc, (IH Hv). reflexivity.
Qed.

Lemma match_tag_at_shorter s groups rest :
  match_tag_at s = Some (groups, rest) ->
  (String.length rest < String.length s)%nat.
Proof.
  unfold match_tag_at.
  destruct s as [|c [|n [|k s']]]; try discriminate.
  destruct ((Ascii.eqb c "L" || Ascii.eqb c "S") && Ascii.eqb n "N" && Ascii.eqb k ":");
    [|discriminate].
  destruct (until_tab s') as [v rest'] eqn:E. apply until_tab_shorter in E.
  destruct v; [discriminate|]. intros [= <- <-]. cbn [String.length] in *. lia.
Qed.

Lemma match_tag_at_groups s tag v rest :
  match_tag_at s = Some ((tag, v), rest) ->
  (tag = "LN"%string \/ tag = "SN"%string) /\ v <> EmptyString /\ tab_free v = true.
Proof.
  unfold match_tag_at.
  destruct s as [|c [|n [|k s']]]; try discriminate.
  destruct ((Ascii.eqb c "L" || Ascii.eqb c "S") && Ascii.eqb n "N" && Ascii.eqb k ":")
    eqn:E; [|discriminate].
  apply andb_prop in E as [[Ec En]%andb_prop _].
  apply Ascii.eqb_eq in En as ->.
  destruct (until_tab s') as [v' rest'] eqn:Ev.
  apply until_tab_nonempty_tab_free in Ev.
  destruct v'; [discriminate|]. intros [= <- <- <-].
  split; [|split; [discriminate | exact Ev]].
  apply orb_prop in Ec as [Ec|Ec]; apply Ascii.eqb_eq in Ec as ->; auto.
Qed.

(** *** [findall] *)

Lemma findall_from_stable fuel1 fuel2 s :
  (String.length s <= fuel1)%nat -> (String.length s <= fuel2)%nat ->
  findall_from fuel1 s = findall_from fuel2 s.
Proof.
  revert fuel2 s. induction fuel1 as [|f1 IH]; intros [|f2] s H1 H2;
    destruct s as [|c s']; cbn [String.length] in *; try lia; try reflexivity.
  cbn [findall_from].
  destruct (match_tag_at (String c s')) as [[groups rest]|] eqn:E.
  - f_equal. apply match_tag_at_shorter in E. cbn [String.length] in E. apply IH; lia.
  - apply IH; lia.
Qed.

Lemma findall_step c s :
  findall (String c s) =
  match match_tag_at (String c s) with
  | Some (groups, rest) => groups :: findall rest
  | None => findall s
  end.
Proof.
  unfold findall at 1. cbn [String.length findall_from].
  destruct (match_tag_at (String c s)) as [[groups rest]|] eqn:E.
  - apply match_tag_at_shorter in E. cbn [String.length] in E.
    f_equal. apply findall_from_stable; lia.
  - apply findall_from_stable; lia.
Qed.

Lemma findall_groups s :
  Forall (fun kv => (kv.1 = "LN"%string \/ kv.1 = "SN"%string) /\
                    kv.2 <> EmptyString /\ tab_free kv.2 = true) (findall s).
Proof.
  unfold findall. generalize (String.length s) as fuel. intros fuel. revert s.
  induction fuel as [|fuel IH]; intros s; cbn [findall_from]; [constructor|].
  destruct s as [|c s']; [constructor|].
  destruct (match_tag_at (String c s')) as [[[tag v] rest]|] eqn:E; [|apply IH].
  constructor; [exact (match_tag_at_groups _ _ _ _ E) | apply IH].
Qed.

(** *** [dict] *)

Lemma dict_from_lookup (pairs : list (string * string)) (d : gmap string string) k v :
  fold_left (fun d kv => <[kv.1 := kv.2]> d) pairs d !! k = Some v ->
  d !! k = Some v \/ (k, v) ∈ pairs.
Proof.
  revert d. induction pairs as [|[k' v'] pairs IH]; intros d; cbn [fold_left fst snd];
    [auto|].
  intros H. apply IH in H as [H|H]; [|right; right; exact H].
  destruct (decide (k' = k)) as [->|Hne].
  - rewrite lookup_insert_eq in H. injection H as ->. right. left.
  - rewrite lookup_insert_ne in H by exact Hne. left. exact H.
Qed.

Lemma dict_lookup pairs k v : dict pairs !! k = Some v -> (k, v) ∈ pairs.
Proof.
  unfold dict. intros H. apply dict_from_lookup in H as [H|H]; [|exact H].
  rewrite lookup_empty in H. discriminate.
Qed.

(** *** The header loop *)

Section HeaderLoop.

Variable py_int : string -> option Z.

Lemma header_line_keys (m m' : gmap string Z) line :
  header_line py_int m line = inr m' ->
  m !! EmptyString = None -> m' !! EmptyString = None.
Proof.
  unfold header_line. destruct (String.prefix "@SQ" line); [|intros [= <-]; auto].
  destruct (dict (findall line) !! "SN"%string) as [sn|] eqn:Esn; [|discriminate].
  destruct (dict (findall line) !! "LN"%string) as [ln|]; [|discriminate].
  destruct (py_int ln) as [n|]; [|discriminate].
  intros [= <-] Hm. apply dict_lookup in Esn.
  pose proof (findall_groups line) as Hg. rewrite Forall_forall in Hg.
  destruct (Hg _ Esn) as (_ & Hne & _). cbn [snd] in Hne.
  rewrite lookup_insert_ne by exact Hne. exact Hm.
Qed.

Lemma header_loop_keys lines : forall (m m' : gmap string Z) rest,
  header_loop py_int m lines = inr (m', rest) ->
  m !! EmptyString = None -> m' !! EmptyString = None.
Proof.
  induction lines as [|line lines IH]; intros m m' rest; cbn [header_loop];
    [discriminate|].
  destruct line as [|c l]; [discriminate|].
  destruct (Ascii.eqb c "@"); [|intros [= <- <-]; auto].
  destruct (header_line py_int m (String c l)) as [e|m1] eqn:E; [discriminate|].
  intros H Hm. exact (IH _ _ _ H (header_line_keys _ _ _ E Hm)).
Qed.

(** What the header loop leaves begins with a line that is not empty and
    does not begin with [@]. *)
Lemma header_loop_rest lines : forall (m m' : gmap string Z) rest,
  header_loop py_int m lines = inr (m', rest) ->
  exists c l rest', rest = String c l :: rest' /\ Ascii.eqb c "@" = false.
Proof.
  induction lines as [|line lines IH]; intros m m' rest; cbn [header_loop];
    [discriminate|].
  destruct line as [|c l]; [discriminate|].
  destruct (Ascii.eqb c "@") eqn:Ec; [|intros [= <- <-]; eauto].
  destruct (header_line py_int m (String c l)) as [e|m1]; [discriminate|].
  apply IH.
Qed.

(** When every line begins with [@], the loop ends in an exception: the
    [IndexError] of the end of the input, unless a header line raises
    before. *)
Lemma header_loop_only_header lines : forall (m : gmap string Z),
  Forall (fun line => String.prefix "@" line = true) lines ->
  exists e, header_loop py_int m lines = inl e /\
            (e = IndexError \/
             exists line m0, line ∈ lines /\ header_line py_int m0 line = inl e).
Proof.
  induction lines as [|line lines IH]; intros m Hlines; cbn [header_loop].
  - exists IndexError. auto.
  - apply Forall_cons in Hlines as [Hline Hlines].
    destruct line as [|c l]; [discriminate Hline|].
    cbn [String.prefix] in Hline.
    destruct (Ascii.eqb c "@") eqn:Ec.
    2:{ destruct (ascii_dec "@" c) as [<-|]; [discriminate Ec | discriminate Hline]. }
    destruct (header_line py_int m (String c l)) as [e|m1] eqn:E.
    + exists e. split; [reflexivity|]. right. exists (String c l), m.
      split; [left | exact E].
    + destruct (IH m1 Hlines) as (e & He & Hwhy). exists e. split; [exact He|].
      destruct Hwhy as [->|(line & m0 & Hin & Hraise)]; [auto|].
      right. exists line, m0. split; [right; exact Hin | exact Hraise].
Qed.

End HeaderLoop.

(** *** An [@SQ] line with two tags *)

Lemma match_tag_at_tag tag v rest :
  tag = "LN"%string \/ tag = "SN"%string ->
  v <> EmptyString -> tab_free v = true ->
  rest = EmptyString \/ (exists t, rest = String tab t) ->
  match_tag_at (tag +:+ String ":" (v +:+ rest)) = Some ((tag, v), rest).
Proof.
  intros Htag Hne Hv Hrest.
  destruct Htag as [-> | ->]; rewrite !append_cons, append_nil_l;
    cbn [match_tag_at]; cbn [Ascii.eqb Bool.eqb orb andb];
    rewrite (until_tab_value v rest Hv Hrest);
    (destruct v; [contradiction | reflexivity]).
Qed.

Lemma match_tag_at_tab s : match_tag_at (String tab s) = None.
Proof. destruct s as [|n [|k s']]; reflexivity. Qed.

Lemma findall_sq_line tag1 v1 tag2 v2 :
  tag1 = "LN"%string \/ tag1 = "SN"%string ->
  tag2 = "LN"%string \/ tag2 = "SN"%string ->
  v1 <> EmptyString -> tab_free v1 = true ->
  v2 <> EmptyString -> tab_free v2 = true ->
  findall (sq_line tag1 v1 tag2 v2) = [(tag1, v1); (tag2, v2)].
Proof.
  intros H1 H2 Hne1 Hv1 Hne2 Hv2. unfold sq_line.
  set (tail := tag2 +:+ String ":" v2).
  set (body := tag1 +:+ String ":" (v1 +:+ String tab tail)).
  assert (Hbody : exists c s, body = String c (String "N" s) /\
                              (c = "L"%char \/ c = "S"%char)).
  { destruct H1 as [-> | ->]; subst body; rewrite !append_cons; eauto. }
  destruct Hbody as (c & s & Ebody & Hc).
  assert (Hhead : findall ("@SQ" +:+ String tab body) = findall body).
  { rewrite !append_cons, append_nil_l.
    rewrite findall_step. cbn [match_tag_at Ascii.eqb Bool.eqb orb andb].
    rewrite findall_step. cbn [match_tag_at Ascii.eqb Bool.eqb orb andb].
    rewrite findall_step.
    replace (match_tag_at (String "Q" (String tab body))) with
      (@None ((string * string) * string))
      by (rewrite Ebody; reflexivity).
    rewrite findall_step, match_tag_at_tab. reflexivity. }
  rewrite Hhead. clear Hhead Ebody Hc c s. subst body.
  assert (E1 : match_tag_at (tag1 +:+ String ":" (v1 +:+ String tab tail)) =
               Some ((tag1, v1), String tab tail))
    by (apply match_tag_at_tag; eauto).
  assert (E2 : match_tag_at (tag2 +:+ String ":" (v2 +:+ EmptyString)) =
               Some ((tag2, v2), EmptyString))
    by (apply match_tag_at_tag; eauto).
  rewrite append_nil_r in E2. fold tail in E2.
  assert (Hcons1 : exists c s, tag1 +:+ String ":" (v1 +:+ String tab tail) = String c s)
    by (destruct H1 as [-> | ->]; rewrite append_cons; eauto).
  destruct Hcons1 as (c1 & s1 & Ec1). rewrite Ec1 in E1 |- *.
  rewrite findall_step, E1, findall_step, match_tag_at_tab.
  assert (Hcons2 : exists c s, tail = String c s)
    by (subst tail; destruct H2 as [-> | ->]; rewrite append_cons; eauto).
  destruct Hcons2 as (c2 & s2 & Ec2). rewrite Ec2 in E2 |- *.
  rewrite findall_step, E2. reflexivity.
Qed.

Lemma prefix_sq_line tag1 v1 tag2 v2 :
  String.prefix "@SQ" (sq_line tag1 v1 tag2 v2) = true.
Proof. unfold sq_line. rewrite !append_cons. cbn. reflexivity. Qed.

(** *** Splitting a line into its fields *)

Lemma plain_tab_free s : plain s = true -> tab_free s = true.
Proof.
  induction s as [|c s IH]; [reflexivity|]. cbn [plain tab_free].
  intros [[Hc _]%andb_prop Hs]%andb_prop. rewrite Hc, (IH Hs). reflexivity.
Qed.

Lemma plain_newline_free s : plain s = true -> newline_free s = true.
Proof.
  induction s as [|c s IH]; [reflexivity|]. cbn [plain newline_free].
  intros [[_ Hc]%andb_prop Hs]%andb_prop. rewrite Hc, (IH Hs). reflexivity.
Qed.

Lemma newline_free_append s t :
  newline_free s = true -> newline_free t = true -> newline_free (s +:+ t) = true.
Proof.
  intros Hs Ht. induction s as [|c s IH]; [exact Ht|].
  cbn [newline_free] in Hs. apply andb_prop in Hs as [Hc Hs].
  rewrite append_cons. cbn [newline_free]. rewrite Hc, (IH Hs). reflexivity.
Qed.

Lemma newline_free_join fields :
  Forall (fun f => plain f = true) fields -> newline_free (join_tab fields) = true.
Proof.
  induction 1 as [|f fields Hf Hfields IH]; [reflexivity|].
  destruct fields as [|f' fields]; [exact (plain_newline_free _ Hf)|].
  change (join_tab (f :: f' :: fields))
    with (f +:+ String tab (join_tab (f' :: fields))).
  apply newline_free_append; [exact (plain_newline_free _ Hf)|].
  cbn [newline_free]. rewrite IH. reflexivity.
Qed.

Lemma rstrip_newline_free s : newline_free s = true -> rstrip_newline s = s.
Proof.
  induction s as [|c s IH]; [reflexivity|]. cbn [newline_free rstrip_newline].
  intros [Hc Hs]%andb_prop. rewrite (IH Hs). apply negb_true_iff in Hc.
  destruct s; [rewrite Hc|]; reflexivity.
Qed.

Lemma rstrip_newline_end s :
  rstrip_newline (s +:+ String newline EmptyString) = rstrip_newline s.
Proof.
  induction s as [|c s IH]; [reflexivity|].
  rewrite append_cons. cbn [rstrip_newline]. rewrite IH. reflexivity.
Qed.

Lemma split_tab_field f rest :
  tab_free f = true ->
  split_tab (f +:+ String tab rest) = f :: split_tab rest.
Proof.
  intros Hf. induction f as [|c f IH].
  - rewrite append_nil_l. cbn [split_tab]. rewrite Ascii.eqb_refl. reflexivity.
  - cbn [tab_free] in Hf. apply andb_prop in Hf as [Hc Hf].
    rewrite append_cons. cbn [split_tab]. apply negb_true_iff in Hc.
    rewrite Hc, (IH Hf). reflexivity.
Qed.

Lemma split_tab_last f : tab_free f = true -> split_tab f = [f].
Proof.
  induction f as [|c f IH]; [reflexivity|]. cbn [tab_free split_tab].
  intros [Hc Hf]%andb_prop. apply negb_true_iff in Hc. rewrite Hc, (IH Hf).
  reflexivity.
Qed.

(** Splitting gives back the fields that were joined. *)
Lemma split_tab_join fields :
  fields <> [] -> Forall (fun f => tab_free f = true) fields ->
  split_tab (join_tab fields) = fields.
Proof.
  intros Hne Hfields. induction Hfields as [|f fields Hf Hfields IH]; [contradiction|].
  destruct fields as [|f' fields]; [exact (split_tab_last _ Hf)|].
  change (join_tab (f :: f' :: fields))
    with (f +:+ String tab (join_tab (f' :: fields))).
  rewrite (split_tab_field _ _ Hf), IH by discriminate. reflexivity.
Qed.

(** *** The loop over the tabular lines *)

Lemma tabular_loop_records py_int w chr_lens lines : forall st records,
  Forall2 (fun l r => l <> EmptyString /\ parse_line py_int l = inr r) lines records ->
  tabular_loop py_int w chr_lens st lines = process_records w chr_lens st records.
Proof.
  induction lines as [|l lines IH]; intros st records Hlines;
    inversion Hlines as [|l' r lines' records' [Hne Hp] Hrest]; subst;
    [reflexivity|].
  cbn [tabular_loop process_records]. rewrite Hp.
  destruct l as [|c l]; [contradiction|].
  destruct (process_record w chr_lens st r); cbn [bind]; auto.
Qed.

Lemma sq_line_header py_int (chr_lens : gmap string Z) name len :
  name <> EmptyString -> tab_free name = true ->
  len <> EmptyString -> tab_free len = true ->
  header_line py_int chr_lens (sq_line "SN" name "LN" len) =
    match py_int len with
    | Some n => inr (<[name := n]> chr_lens)
    | None => inl ValueError
    end /\
  header_line py_int chr_lens (sq_line "LN" len "SN" name) =
    match py_int len with
    | Some n => inr (<[name := n]> chr_lens)
    | None => inl ValueError
    end.
Proof.
  intros Hname Hn Hlen Hl. unfold header_line.
  rewrite !prefix_sq_line, !findall_sq_line by auto.
  split; reflexivity.
Qed.

End InputFacts.

(** * Further properties of the script *)

(** ** Standard input *)

(** X1: the header loop never enters the empty name in [chr_lens]: the
    value of an [SN] tag has at least one character. *)
Theorem header_names_are_not_empty
    (py_int : string -> option Z) (lines rest : list string)
    (chr_lens : gmap string Z) :
  Input.header_loop py_int ∅ lines = inr (chr_lens, rest) ->
  chr_lens !! ""%string = None.
Proof.
  intros H. exact (InputFacts.header_loop_keys py_int lines ∅ chr_lens rest H
                     (lookup_empty _)).
Qed.

Lemma header_names_are_not_empty_witness :
  ({["chr1"%string := 10]} : gmap string Z) !! ""%string = None.
Proof.
  apply (header_names_are_not_empty int_of_digits
           [sq_line "SN" "chr1" "LN" "10";
            "r1"%string] ["r1"%string]).
  reflexivity.
Defined.

(** X2: an input in which every line begins with [@] (a header without
    alignments, or no input at all) makes the script fail after the track
    line: with the [IndexError] of [line[0]] at the end of the input,
    unless a header line raises before. *)
Theorem header_without_alignments_fails
    (py_int : string -> option Z) (w : Z) (track : string) (lines : list string) :
  Forall (fun line => String.prefix "@" line = true) lines ->
  exists e,
    Input.script py_int w track lines = Raised e [TrackDef track] /\
    (e = IndexError \/
     exists line m, line ∈ lines /\ Input.header_line py_int m line = inl e).
Proof.
  intros Hlines.
  destruct (InputFacts.header_loop_only_header py_int lines ∅ Hlines) as (e & He & Hwhy).
  exists e. split; [|exact Hwhy]. unfold Input.script. rewrite He. reflexivity.
Qed.

Lemma header_without_alignments_fails_witness :
  exists e,
    Input.script int_of_digits 5 "Coverage"
      ["@HD"%string;
       sq_line "SN" "chr1" "LN" "10"] =
      Raised e [TrackDef "Coverage"] /\
    (e = IndexError \/
     exists line m,
       line ∈ ["@HD"%string;
               sq_line "SN" "chr1" "LN"
                 "10"] /\
       Input.header_line int_of_digits m line = inl e).
Proof.
  apply header_without_alignments_fails. repeat constructor.
Defined.

(** X3: an [@SQ] line with the two tags [SN] and [LN], in either order,
    enters the value of [SN] with [int] of the value of [LN]; the value
    of the second tag runs to the end of the line.  A value is not empty
    and has no tab. *)
Theorem sq_line_declares_chromosome
    (py_int : string -> option Z) (chr_lens : gmap string Z) (name len : string) :
  name <> ""%string -> tab_free name = true ->
  len <> ""%string -> tab_free len = true ->
  let declared :=
    match py_int len with
    | Some n => inr (<[name := n]> chr_lens)
    | None => inl ValueError
    end in
  Input.header_line py_int chr_lens (sq_line "SN" name "LN" len) = declared /\
  Input.header_line py_int chr_lens (sq_line "LN" len "SN" name) = declared.
Proof.
  intros Hname Hn Hlen Hl declared. unfold Input.header_line.
  rewrite !InputFacts.prefix_sq_line, !InputFacts.findall_sq_line by auto.
  split; reflexivity.
Qed.

Lemma sq_line_declares_chromosome_witness :
  Input.header_line int_of_digits ∅
    (sq_line "SN" "chr1" "LN" "10") =
    inr {["chr1"%string := 10]} /\
  Input.header_line int_of_digits ∅
    (sq_line "LN" "10" "SN" "chr1") =
    inr {["chr1"%string := 10]}.
Proof.
  apply (sq_line_declares_chromosome int_of_digits ∅ "chr1"
           "10");
    [discriminate | reflexivity | discriminate | reflexivity].
Defined.

(** X4: when [SN] is the last tag of an [@SQ] line, the newline that ends
    the line is part of the name that is entered, and a record on the
    chromosome is not found: with such a line as the whole header, a first
    tabular line that is a mapped record on that chromosome ends the run
    with the exception of a missing RNAME. *)
Theorem sn_at_end_of_line_is_not_found
    (py_int : string -> option Z) (w : Z) (track : string)
    (name len : string) (n : Z) (c : ascii) (l : string) (r : sam_record)
    (rest : list string) :
  w <> 0 ->
  name <> ""%string -> plain name = true ->
  len <> ""%string -> tab_free len = true -> py_int len = Some n ->
  Ascii.eqb c "@" = false ->
  Input.parse_line py_int (String c l) = inr r ->
  target_name r = name -> cigar r <> "*"%string ->
  Input.script py_int w track
    (sq_line "LN" len "SN" (name +:+ String Input.newline "") :: String c l :: rest) =
  Raised (SAMformatException
            "SAM alignment record had RNAME value not present in SAM @SQ headers")
         [TrackDef track].
Proof.
  intros Hw Hname Hplain Hlen Hl Hint Hc Hparse Hr Hcigar.
  assert (Hkey : name +:+ String Input.newline "" <> name).
  { intros E. apply (f_equal String.length) in E.
    revert E. clear. induction name as [|a s IH]; cbn; [discriminate|].
    intros [= E]. exact (IH E). }
  assert (Htab : tab_free (name +:+ String Input.newline "") = true).
  { apply InputFacts.plain_tab_free in Hplain. revert Hplain. clear.
    induction name as [|a s IH]; [reflexivity|]. cbn [tab_free].
    intros [Ha Hs]%andb_prop. rewrite InputFacts.append_cons. cbn [tab_free].
    rewrite Ha, (IH Hs). reflexivity. }
  assert (Hne : name +:+ String Input.newline "" <> ""%string)
    by (destruct name; discriminate).
  destruct (InputFacts.sq_line_header py_int ∅ _ len Hne Htab Hlen Hl) as [_ Hline].
  unfold Input.script. cbn [Input.header_loop].
  assert (Hat : exists s, sq_line "LN" len "SN" (name +:+ String Input.newline "") =
                          String "@" s) by (unfold sq_line; cbn; eauto).
  destruct Hat as [s Hs]. rewrite Hs in *. cbn [Ascii.eqb Bool.eqb andb].
  rewrite Hline, Hint, Hc. cbn [Input.tabular_loop]. rewrite Hparse.
  unfold initial_state. rewrite process_record_other by (cbn [current_chr]; congruence).
  unfold next_chr, finish_chr. cbn [windows current_chr current_chr_len
    current_window_start stdout length map app].
  assert (Hrange : exists unstored, range (1 + Z.of_nat 0 * w) (0 + 1) w = Some unstored /\
                                    unstored = []).
  { unfold range. destruct (Z.eqb_spec w 0); [contradiction|].
    unfold range_len. cbn. destruct (0 <? w); eauto. }
  destruct Hrange as (unstored & -> & ->). cbn [bind map app stdout].
  rewrite Hr, lookup_insert_ne by exact Hkey. rewrite lookup_empty. reflexivity.
Qed.

Lemma sn_at_end_of_line_is_not_found_witness :
  Input.script int_of_digits 5 "Coverage"
    [sq_line "LN" "10" "SN" ("chr1" +:+ String Input.newline "");
     String "r" (String "1" (String Input.tab
       (join_tab ["0"; "chr1"; "7"; "60"; "2M"]%string)))] =
  Raised (SAMformatException
            "SAM alignment record had RNAME value not present in SAM @SQ headers")
         [TrackDef "Coverage"].
Proof.
  apply (sn_at_end_of_line_is_not_found int_of_digits 5 "Coverage" "chr1" "10" 10
           "r" (String "1" (String Input.tab
                  (join_tab ["0"; "chr1"; "7"; "60"; "2M"]%string)))
           (SamRecord "chr1" 7 "2M") []);
    try reflexivity; try discriminate; lia.
Defined.

(** X5: the script on standard input is the main loop on what the header
    loop and the fields of the lines give: when the header loop leaves
    [chr_lens] and the lines [rest], none of them empty, and each line
    of [rest] splits into the fields of a record, the script does what
    [main] does on [chr_lens] and these records. *)
Theorem script_is_main_on_parsed_input
    (py_int : string -> option Z) (w : Z) (track : string)
    (lines rest : list string) (chr_lens : gmap string Z)
    (records : list sam_record) :
  Input.header_loop py_int ∅ lines = inr (chr_lens, rest) ->
  Forall2 (fun l r => l <> ""%string /\ Input.parse_line py_int l = inr r)
          rest records ->
  Input.script py_int w track lines = main w track chr_lens records.
Proof.
  intros Hheader Hrest. unfold Input.script, main. rewrite Hheader.
  rewrite (InputFacts.tabular_loop_records py_int w chr_lens rest _ records Hrest).
  destruct (InputFacts.header_loop_rest py_int lines _ _ _ Hheader)
    as (c & l & rest' & -> & _).
  inversion Hrest; subst. reflexivity.
Qed.

Lemma script_is_main_on_parsed_input_witness :
  Input.script int_of_digits 5 "Coverage"
    [sq_line "SN" "chr1" "LN" ("10" +:+ String Input.newline "");
     join_tab ["r1"; "0"; "chr1"; "7"; "60"; "2M"]%string +:+ String Input.newline ""] =
  main 5 "Coverage" {["chr1"%string := 10]} [SamRecord "chr1" 7 "2M"].
Proof.
  apply (script_is_main_on_parsed_input int_of_digits 5 "Coverage" _
           [join_tab ["r1"; "0"; "chr1"; "7"; "60"; "2M"]%string
              +:+ String Input.newline ""]).
  - reflexivity.
  - repeat constructor. discriminate.
Defined.

(** X6: a line made of six or more fields without tab or newline, joined
    by tabs and ended by a newline, is read back as its third, fourth and
    sixth field; the position goes through [int], whose [ValueError]
    ends the reading whatever the CIGAR field is (the marker [*] too). *)
Theorem parse_line_reads_the_fields
    (py_int : string -> option Z) (fields : list string) (name pos cg : string) :
  Forall (fun f => plain f = true) fields ->
  fields !! 2%nat = Some name ->
  fields !! 3%nat = Some pos ->
  fields !! 5%nat = Some cg ->
  Input.parse_line py_int (join_tab fields +:+ String Input.newline "") =
  match py_int pos with
  | Some start => inr (SamRecord name start cg)
  | None => inl ValueError
  end.
Proof.
  intros Hplain H2 H3 H5. unfold Input.parse_line.
  rewrite InputFacts.rstrip_newline_end.
  rewrite InputFacts.rstrip_newline_free by (apply InputFacts.newline_free_join; exact Hplain).
  rewrite InputFacts.split_tab_join.
  - rewrite H2, H3, H5. reflexivity.
  - intros ->. discriminate H2.
  - eapply Forall_impl; [exact Hplain|]. intros f. apply InputFacts.plain_tab_free.
Qed.

Lemma parse_line_reads_the_fields_witness :
  Input.parse_line int_of_digits
    (join_tab ["r1"; "4"; "chr1"; "seven"; "0"; "*"; "*"]%string
       +:+ String Input.newline "") =
  match int_of_digits "seven" with
  | Some start => inr (SamRecord "chr1" start "*")
  | None => inl ValueError
  end.
Proof.
  apply (parse_line_reads_the_fields int_of_digits
           ["r1"; "4"; "chr1"; "seven"; "0"; "*"; "*"]%string);
    [repeat constructor | reflexivity | reflexivity | reflexivity].
Defined.

(** ** The counting step on any deque *)

Module TotalFacts.
Import Deque DequeFacts.












End TotalFacts.



(** ** The window size and the first chromosome *)

Module FirstRecordFacts.

(** Finishing the chromosome the script starts from writes nothing. *)
Lemma finish_initial w track :
  w <> 0 ->
  finish_chr w (initial_state track) = Done (initial_state track).
Proof.
  intros Hw. unfold finish_chr, initial_state, range, range_len.
  cbn [windows current_chr current_chr_len current_window_start stdout length map app].
  destruct (Z.eqb_spec w 0); [contradiction|].
  destruct (0 <? w); cbn; reflexivity.
Qed.

Lemma process_records_unmapped w chr_lens st records :
  mapped_records records = [] ->
  process_records w chr_lens st records = Done st.
Proof.
  intros H. rewrite RunsFacts.process_records_mapped, H. reflexivity.
Qed.

End FirstRecordFacts.

(** X8: with a window size of zero, the first mapped record on a named
    chromosome ends the run with a [ValueError] (the zero step of the
    [range] that finishes a chromosome); the track line is all that has
    been written. *)
Theorem window_size_zero_fails
    (track : string) (chr_lens : gmap string Z)
    (before after : list sam_record) (r : sam_record) :
  mapped_records before = [] ->
  cigar r <> "*"%string ->
  target_name r <> ""%string ->
  main 0 track chr_lens (before ++ r :: after) = Raised ValueError [TrackDef track].
Proof.
  intros Hbefore Hc Hname. unfold main.
  destruct (before ++ r :: after) eqn:E; [destruct before; discriminate|].
  rewrite <- E, process_records_app, FirstRecordFacts.process_records_unmapped by exact Hbefore.
  cbn [bind process_records].
  rewrite process_record_other by (cbn [initial_state current_chr]; congruence).
  reflexivity.
Qed.

Lemma window_size_zero_fails_witness :
  main 0 "Coverage" {["chr1"%string := 10]}
       ([SamRecord "chr1" 1 "*"] ++ SamRecord "chr1" 3 "4M" :: []) =
  Raised ValueError [TrackDef "Coverage"].
Proof.
  apply window_size_zero_fails; [reflexivity | discriminate | discriminate].
Defined.

(** X9: with a negative window size, the first mapped record on a
    chromosome of the header never lets the run end when its start is
    above the window size (as every position from 0 on is): the loop that
    advances the window moves the window away from the record. *)
Theorem negative_window_size_never_ends
    (w : Z) (track : string) (chr_lens : gmap string Z)
    (before after : list sam_record) (r : sam_record) :
  w < 0 ->
  mapped_records before = [] ->
  cigar r <> "*"%string ->
  target_name r <> ""%string ->
  is_Some (chr_lens !! target_name r) ->
  w < target_start r ->
  main w track chr_lens (before ++ r :: after) = Diverged.
Proof.
  intros Hw Hbefore Hc Hname [len Hlen] Hts. unfold main.
  destruct (before ++ r :: after) eqn:E; [destruct before; discriminate|].
  rewrite <- E, process_records_app, FirstRecordFacts.process_records_unmapped by exact Hbefore.
  cbn [bind process_records].
  rewrite process_record_other by (cbn [initial_state current_chr]; congruence).
  unfold next_chr. rewrite FirstRecordFacts.finish_initial by lia.
  cbn [bind]. rewrite Hlen. cbn [bind]. unfold process_record.
  destruct (decide (cigar r = "*"%string)); [contradiction|].
  cbn [current_chr]. destruct (decide (target_name r = target_name r)); [|contradiction].
  cbn [bind]. rewrite AdvanceFacts.advance_never_ends; [reflexivity | lia |].
  cbn [current_window_start]. lia.
Qed.

Lemma negative_window_size_never_ends_witness :
  main (-5) "Coverage" {["chr1"%string := 10]}
       ([] ++ SamRecord "chr1" 3 "4M" :: []) = Diverged.
Proof.
  apply negative_window_size_never_ends;
    [lia | reflexivity | discriminate | discriminate | eexists; reflexivity | cbn; lia].
Defined.

(** ** Streams with unmapped records *)

(** X10: the unmapped records of a stream do not change what is written:
    as long as a mapped record is left, the script does on the stream what
    it does on its mapped records alone. *)
Theorem unmapped_records_are_invisible
    (w : Z) (track : string) (chr_lens : gmap string Z) (records : list sam_record) :
  mapped_records records <> [] ->
  main w track chr_lens records = main w track chr_lens (mapped_records records).
Proof.
  intros Hne. unfold main.
  destruct records as [|r records]; [contradiction|].
  destruct (mapped_records (r :: records)) eqn:E; [contradiction|].
  rewrite <- E, RunsFacts.process_records_mapped. reflexivity.
Qed.

Lemma unmapped_records_are_invisible_witness :
  main 5 "Coverage" {["chr1"%string := 10]}
       [SamRecord "chr1" 0 "*"; SamRecord "chr1" 7 "2M"; SamRecord "*" 0 "*"] =
  main 5 "Coverage" {["chr1"%string := 10]}
       (mapped_records
          [SamRecord "chr1" 0 "*"; SamRecord "chr1" 7 "2M"; SamRecord "*" 0 "*"]).
Proof.
  apply unmapped_records_are_invisible. vm_compute. discriminate.
Defined.

(** X11: when every record of a stream is unmapped, the output is the
    track line alone: no chromosome is declared and no window is written
    (for any window size but zero, and a stream with at least one line). *)
Theorem only_unmapped_records_give_the_track_line
    (w : Z) (track : string) (chr_lens : gmap string Z) (records : list sam_record) :
  w <> 0 ->
  records <> [] ->
  mapped_records records = [] ->
  main w track chr_lens records = Done [TrackDef track].
Proof.
  intros Hw Hne Hunmapped. unfold main. destruct records as [|r records]; [contradiction|].
  rewrite FirstRecordFacts.process_records_unmapped by exact Hunmapped.
  cbn [bind]. rewrite FirstRecordFacts.finish_initial by exact Hw. reflexivity.
Qed.

Lemma only_unmapped_records_give_the_track_line_witness :
  main 5 "Coverage" {["chr1"%string := 10]}
       [SamRecord "chr1" 0 "*"; SamRecord "*" 0 "*"] = Done [TrackDef "Coverage"].
Proof.
  apply only_unmapped_records_give_the_track_line; [lia | discriminate | reflexivity].
Defined.

(** ** Advancing the window *)

(** X12: with a positive window size the loop that advances the window
    ends: it runs [n = (target_start - current_window_start) div
    window_size] times (not at all for a start before the window), writes
    the first [n] counts of the deque (zeros once the deque is empty),
    and stops with the start of the record no further than the end of the
    front window; the start is in the front window when it was not before
    the window to begin with. *)
Theorem advance_reaches_the_window_of_the_start
    (w ts : Z) (ws : list Z) (chr : string) (len cws : Z) (out : list line) :
  0 < w ->
  let n := Z.to_nat ((ts - cws) / w) in
  let cws' := cws + Z.of_nat n * w in
  advance w (advance_fuel ts (State ws chr len cws out)) ts (State ws chr len cws out) =
    Done (State (drop n ws) chr len cws' (out ++ map Count (written n ws))) /\
  ts <= cws' + w - 1 /\
  (cws <= ts -> cws' <= ts).
Proof.
  intros Hw n cws'. split.
  - unfold advance_fuel. cbn [current_window_start].
    apply (advance_done w Hw). lia.
  - exact (BufferFacts.advance_stops w Hw ts cws).
Qed.

Lemma advance_reaches_the_window_of_the_start_witness :
  advance 5 (advance_fuel 17 (State [2; 1] "chr1" 40 1 [])) 17 (State [2; 1] "chr1" 40 1 []) =
    Done (State [] "chr1" 40 16 [Count 2; Count 1; Count 0]) /\
  17 <= 16 + 5 - 1 /\
  (1 <= 17 -> 16 <= 17).
Proof.
  apply (advance_reaches_the_window_of_the_start 5 17 [2; 1] "chr1" 40 1 []). lia.
Defined.

(** ** Records out of order *)



Example record_behind_the_window :
  process_record 5 {["chr1"%string := 40]}
    (State [4; 2; 1] "chr1" 40 11 [TrackDef "Coverage"]) (SamRecord "chr1" 2 "3M") =
  Done (State [1; 4; 2] "chr1" 40 11 [TrackDef "Coverage"]).
Proof. reflexivity. Qed.

(** ** The track of a single record *)

Module SingleFacts.





End SingleFacts.



(** ** Streams in any order *)

Module AnyOrderFacts.





Section AnyOrder.

Variable w : Z.
Hypothesis w_pos : 0 < w.
Variable chr_lens : gmap string Z.


End AnyOrder.

End AnyOrderFacts.



Example chromosome_declared_again :
  main 5 "Coverage" {["chr1"%string := 10; "chr2"%string := 5]}
       [SamRecord "chr1" 7 "2M"; SamRecord "chr2" 1 "5M"; SamRecord "chr1" 2 "2M"] =
  Done [TrackDef "Coverage";
        FixedStep "chr1" 1 5 5; Count 0; Count 1;
        FixedStep "chr2" 1 5 5; Count 1;
        FixedStep "chr1" 1 5 5; Count 1; Count 0].
Proof. reflexivity. Qed.

(** ** The sign of the counts *)

Module SignFacts.




Section AnyWindowSize.

Variable w : Z.
Variable chr_lens : gmap string Z.







End AnyWindowSize.

End SignFacts.



(** ** The span calculator on any text *)

(** X17: the span calculator never returns a negative number, whatever
    the text. *)
Theorem span_is_never_negative (c : string) : 0 <= sumTargetConsumingCigarOps c.
Proof. apply CigarFacts.span_calculator_nonneg. Qed.

(** X18: how the span calculator reads a text from the left: a run of
    digits (possibly empty) followed by a character that is not a digit
    adds the number written when the character is one of [=DMX], and
    nothing for any other character (a lower-case letter, an unknown
    operation); the text after it is read in the same way.  A text of
    digits alone gives 0. *)
Theorem span_calculator_reads_runs :
  (forall (u : Decimal.uint) (c : ascii) (rest : string),
      is_digit c = false ->
      sumTargetConsumingCigarOps (digits u +:+ String c rest) =
      (if is_consumer c then Z.of_N (N.of_uint u) else 0) +
      sumTargetConsumingCigarOps rest) /\
  (forall u : Decimal.uint, sumTargetConsumingCigarOps (digits u) = 0).
Proof.
  split.
  - intros u c rest Hc. unfold sumTargetConsumingCigarOps.
    pose proof (CigarFacts.decimal_digits u) as Hu.
    pose proof (CigarFacts.int_digits u) as Hn. fold (digits u) in Hu. rewrite <- Hn.
    destruct (digits u) as [|d ds].
    + rewrite CigarFacts.append_empty, CigarFacts.finditer_step. cbn [match_at].
      rewrite Hc. change (int EmptyString) with 0. destruct (is_consumer c); lia.
    + cbn [all_digits] in Hu. apply andb_prop in Hu as [Hd Hds].
      rewrite CigarFacts.append_String. destruct (is_consumer c) eqn:Hop.
      * rewrite (CigarFacts.finditer_run_matched d ds _ _ Hd Hds Hop),
          CigarFacts.sum_matched. reflexivity.
      * rewrite <- CigarFacts.append_String.
        rewrite (CigarFacts.finditer_run_skipped (String d ds) _ _); [lia | | exact Hc | exact Hop].
        cbn [all_digits]. rewrite Hd, Hds. reflexivity.
  - intros u. unfold sumTargetConsumingCigarOps.
    rewrite CigarFacts.finditer_no_consumer; [reflexivity|].
    pose proof (CigarFacts.decimal_digits u) as Hu. fold (digits u) in Hu.
    induction (digits u) as [|d ds IH]; [reflexivity|].
    cbn [all_digits no_consumer] in *. apply andb_prop in Hu as [Hd Hds].
    rewrite (CigarFacts.digit_not_consumer d Hd), (IH Hds). reflexivity.
Qed.

Lemma span_calculator_reads_runs_witness :
  sumTargetConsumingCigarOps (digits (N.to_uint 12) +:+ String "m" "3M") =
    (if is_consumer "m" then Z.of_N (N.of_uint (N.to_uint 12)) else 0) +
    sumTargetConsumingCigarOps "3M" /\
  sumTargetConsumingCigarOps (digits (N.to_uint 12)) = 0.
Proof.
  split.
  - apply (proj1 span_calculator_reads_runs). reflexivity.
  - apply (proj2 span_calculator_reads_runs).
Defined.
